(** * Auto Buyer demo backend: ingestion, normalisation and scoring

    A shallow embedding of [backend/app.py] (the FastAPI scoring stub) with
    its process-local store, and the properties of the pipeline stated in
    the specification.

    Modelling conventions.
    - Python [int] is [Z]; Python [float] is IEEE-754 binary64, taken from
      the Standard Library's executable specification [SpecFloat] at
      precision 53 and maximal exponent 1024 (round to nearest, ties to
      even), so that every arithmetic step of the heuristic is computed
      bit for bit as CPython computes it.
    - Python [str] is [string]; [strip] and [upper] are Python's on ASCII
      text (VINs and the text fields of a listing are ASCII). A character
      above 127 is left as it is, which is not what Python does with
      U+00A0 or with an accented letter: a statement that depends on which
      VINs share a key takes the VINs to be ASCII ([PyStr.isascii]).
    - Python [dict] is an insertion-ordered association list ([PyDict]):
      [list(d.values())] depends on that order.
    - Exceptions are values of [PyErr]; a computation that may raise
      returns [result A].
    - [Store], [ingest], [score] and [run] are the process with
      [_db_enabled = False], the in-memory store. The branch of [score]
      taken with [_db_enabled = True] (the insert into the table [scores])
      is [score_on], over the two tables that insert involves; with the
      flag off [score_on] is [score]. *)

From Stdlib Require Import ZArith List Sorted String Ascii Bool Lia.
From Stdlib Require Import SpecFloat.
Import ListNotations.
Open Scope string_scope.
Open Scope list_scope.
Open Scope Z_scope.

(** ** Exceptions *)

Inductive PyErr : Type :=
| OverflowError
| ValueError
| ZeroDivisionError
| ValidationError.

Definition result (A : Type) : Type := (PyErr + A)%type.

Definition ret {A : Type} (a : A) : result A := inr a.

Definition raise {A : Type} (e : PyErr) : result A := inl e.

Definition bind {A B : Type} (m : result A) (k : A -> result B) : result B :=
  match m with
  | inl e => inl e
  | inr a => k a
  end.

Notation "x <- m ;; k" := (bind m (fun x => k))
  (at level 61, m at next level, right associativity).

(** ** Strings: [str.strip()] and [str.upper()] *)

Module PyStr.

(** [str.isspace] on the ASCII range: TAB, LF, VT, FF, CR, the four
    separators 0x1c-0x1f and the space. *)
Definition isspace (c : ascii) : bool :=
  let n := N_of_ascii c in
  ((9 <=? n) && (n <=? 13) || (28 <=? n) && (n <=? 32))%N.

Definition upper_char (c : ascii) : ascii :=
  let n := N_of_ascii c in
  if ((97 <=? n) && (n <=? 122))%N then ascii_of_N (n - 32) else c.

Fixpoint upper (s : string) : string :=
  match s with
  | EmptyString => EmptyString
  | String c s' => String (upper_char c) (upper s')
  end.

Fixpoint lstrip (s : string) : string :=
  match s with
  | EmptyString => EmptyString
  | String c s' => if isspace c then lstrip s' else s
  end.

(** [rstrip] drops the trailing run of whitespace: a character is kept
    when something is kept after it, or when it is not whitespace. *)
Fixpoint rstrip (s : string) : string :=
  match s with
  | EmptyString => EmptyString
  | String c s' =>
      match rstrip s' with
      | EmptyString => if isspace c then EmptyString else String c EmptyString
      | r => String c r
      end
  end.

Definition strip (s : string) : string := rstrip (lstrip s).

(** A string made of whitespace only. *)
Fixpoint all_space (s : string) : bool :=
  match s with
  | EmptyString => true
  | String c s' => isspace c && all_space s'
  end.

(** [str.isascii]: every character is below 128. *)
Fixpoint isascii (s : string) : bool :=
  match s with
  | EmptyString => true
  | String c s' => (N_of_ascii c <? 128)%N && isascii s'
  end.

End PyStr.

(** ** Floats: binary64 as CPython uses it *)

Module PyFloat.

Definition prec : Z := 53.
Definition emax : Z := 1024.

Definition float : Type := spec_float.

Definition fadd : float -> float -> float := SFadd prec emax.
Definition fsub : float -> float -> float := SFsub prec emax.
Definition fmul : float -> float -> float := SFmul prec emax.
Definition fdiv : float -> float -> float := SFdiv prec emax.
Definition fltb : float -> float -> bool := SFltb.

(** [float(z)] for a Python int: the nearest binary64 (exact below 2^53,
    which covers every integer constant of the program). *)
Definition float_of_int (z : Z) : float := binary_normalize prec emax z 0 false.

(** A decimal literal [n/d] of the source text denotes the binary64
    nearest to that rational: [1.03] is [literal 103 100]. *)
Definition literal (n d : positive) : float :=
  SFdiv prec emax (S754_finite false n 0) (S754_finite false d 0).

(** [a / b] on two Python ints (true division): the correctly rounded
    quotient, [ZeroDivisionError] on a zero divisor and [OverflowError]
    when the quotient is too large for a float. *)
Definition int_truediv (a b : Z) : result float :=
  match a, b with
  | _, Z0 => raise ZeroDivisionError
  | Z0, _ => ret (S754_zero false)
  | Zpos p, Zpos q | Zneg p, Zneg q =>
      match SFdiv prec emax (S754_finite false p 0) (S754_finite false q 0) with
      | S754_infinity _ => raise OverflowError
      | f => ret f
      end
  | Zpos p, Zneg q | Zneg p, Zpos q =>
      match SFdiv prec emax (S754_finite true p 0) (S754_finite false q 0) with
      | S754_infinity _ => raise OverflowError
      | f => ret f
      end
  end.

(** [int(x)] on a float truncates toward zero; it raises on an infinity
    ([OverflowError]) and on a NaN ([ValueError]). *)
Definition int_of_float (x : float) : result Z :=
  match x with
  | S754_zero _ => ret 0
  | S754_finite s m e =>
      ret (cond_Zopp s
             (match e with
              | Zneg k => Zpos m / 2 ^ Zpos k
              | _ => Zpos m * 2 ^ e
              end))
  | S754_infinity _ => raise OverflowError
  | S754_nan => raise ValueError
  end.

(** The integer nearest to [a / b], ties to the even one. *)
Definition div_half_even (a b : Z) : Z :=
  let q := a / b in
  match (2 * (a mod b) ?= b) with
  | Lt => q
  | Gt => q + 1
  | Eq => if Z.even q then q else q + 1
  end.

(** The number of hundredths nearest to the exact value [m * 2^e]. *)
Definition hundredths (m : positive) (e : Z) : Z :=
  match e with
  | Zneg k => div_half_even (100 * Zpos m) (2 ^ Zpos k)
  | _ => 100 * Zpos m * 2 ^ e
  end.

(** [round(x, 2)]: CPython converts [x] to the correctly rounded decimal
    with two digits after the point (ties to even on the exact binary
    value) and reads that decimal back as the nearest float; zeros,
    infinities and NaN round to themselves and the sign is kept. *)
Definition round2 (x : float) : float :=
  match x with
  | S754_finite s m e =>
      match hundredths m e with
      | Zpos n => SFdiv prec emax (S754_finite s n 0) (S754_finite false 100 0)
      | _ => S754_zero s
      end
  | _ => x
  end.

(** Python numbers as the heuristic mixes them: [min] and [max] return one
    of their arguments, an [int] or a [float]. *)
Inductive PyNum : Type :=
| PInt (z : Z)
| PFloat (f : float).

Definition to_float (n : PyNum) : float :=
  match n with
  | PInt z => float_of_int z
  | PFloat f => f
  end.

(** [a < b]; an int meets a float through its exact float value (the ints
    compared with floats here are the constants 0, 20, 100 and 25000). *)
Definition py_lt (a b : PyNum) : bool :=
  match a, b with
  | PInt x, PInt y => x <? y
  | _, _ => fltb (to_float a) (to_float b)
  end.

(** [min(a, b)] keeps [a] unless [b < a]; [max(a, b)] keeps [a] unless
    [b > a]. *)
Definition py_min (a b : PyNum) : PyNum := if py_lt b a then b else a.
Definition py_max (a b : PyNum) : PyNum := if py_lt a b then b else a.

(** [int(n)] *)
Definition py_int (n : PyNum) : result Z :=
  match n with
  | PInt z => ret z
  | PFloat f => int_of_float f
  end.

(** [min] and [max] of two floats, with the same conventions. *)
Definition fmin (a b : float) : float := if fltb b a then b else a.
Definition fmax (a b : float) : float := if fltb a b then b else a.

(** The mantissa of a finite float fits the 53 bits of the format; every
    arithmetic operation returns such a float. *)
Definition mant_ok (x : float) : Prop :=
  match x with
  | S754_finite _ m _ => Zpos (digits2_pos m) <= prec
  | _ => True
  end.

Definition is_finite_or_zero (x : float) : bool :=
  match x with
  | S754_zero _ | S754_finite _ _ _ => true
  | _ => false
  end.

(** [z] is an integer nearest to the exact value of [x]: they differ by
    one half at most (whatever the rule for ties). *)
Definition nearest_int (x : float) (z : Z) : Prop :=
  match x with
  | S754_zero _ => z = 0
  | S754_finite s m (Zneg k) =>
      2 * Z.abs (cond_Zopp s (Zpos m) - z * 2 ^ Zpos k) <= 2 ^ Zpos k
  | S754_finite s m e => z = cond_Zopp s (Zpos m) * 2 ^ e
  | _ => False
  end.




End PyFloat.

(** ** Dictionaries: insertion-ordered, string keys *)

Module PyDict.

Section Dict.
Context {V : Type}.

Definition dict : Type := list (string * V).

Definition empty : dict := [].

(** [d.get(k)] *)
Fixpoint get (k : string) (d : dict) : option V :=
  match d with
  | [] => None
  | (k', v) :: d' => if String.eqb k k' then Some v else get k d'
  end.

(** [d[k] = v]: an existing key keeps its position, a new key goes last. *)
Fixpoint set (k : string) (v : V) (d : dict) : dict :=
  match d with
  | [] => [(k, v)]
  | (k', v') :: d' =>
      if String.eqb k k' then (k', v) :: d' else (k', v') :: set k v d'
  end.

(** [d.setdefault(k, v)] (the dictionary after the call) *)
Definition setdefault (k : string) (v : V) (d : dict) : dict :=
  match get k d with
  | Some _ => d
  | None => set k v d
  end.

(** [list(d.values())] and [list(d.keys())] *)
Definition values (d : dict) : list V := map snd d.
Definition keys (d : dict) : list string := map fst d.

End Dict.

Arguments dict V : clear implicits.

End PyDict.

(** ** The models of [app.py] *)

Import PyFloat.

(** [class Listing(BaseModel)]: the facts a score request carries. *)
Module Listing.
Record t : Type := mk {
  vin : string;
  price : float;
  miles : Z;
  dom : Z;
  source : option string
}.
End Listing.

(** [class ScoreResponse(BaseModel)]; [score] is declared with
    [Field(..., ge=0, le=100)], checked when a response is built. *)
Module ScoreResponse.
Record t : Type := mk {
  vin : string;
  score : Z;
  buyMax : float;
  reasonCodes : list string
}.

Definition validate (r : t) : result t :=
  if (0 <=? score r) && (score r <=? 100) then ret r else raise ValidationError.
End ScoreResponse.

(** [class StoredListing(BaseModel)]; [created_at] is a [datetime], here
    a count of microseconds. *)
Module StoredListing.
Record t : Type := mk {
  id : string;
  vin : string;
  year : Z;
  make : string;
  model : string;
  trim : option string;
  miles : Z;
  price : float;
  score : option Z;
  dom : Z;
  source : option string;
  radius : option Z;
  reasonCodes : list string;
  buyMax : option float;
  created_at : Z
}.

Definition set_vin (v : string) (l : t) : t :=
  mk (id l) v (year l) (make l) (model l) (trim l) (miles l) (price l)
     (score l) (dom l) (source l) (radius l) (reasonCodes l) (buyMax l)
     (created_at l).

Definition set_make (v : string) (l : t) : t :=
  mk (id l) (vin l) (year l) v (model l) (trim l) (miles l) (price l)
     (score l) (dom l) (source l) (radius l) (reasonCodes l) (buyMax l)
     (created_at l).

Definition set_model (v : string) (l : t) : t :=
  mk (id l) (vin l) (year l) (make l) v (trim l) (miles l) (price l)
     (score l) (dom l) (source l) (radius l) (reasonCodes l) (buyMax l)
     (created_at l).

Definition set_trim (v : option string) (l : t) : t :=
  mk (id l) (vin l) (year l) (make l) (model l) v (miles l) (price l)
     (score l) (dom l) (source l) (radius l) (reasonCodes l) (buyMax l)
     (created_at l).

Definition set_radius (v : option Z) (l : t) : t :=
  mk (id l) (vin l) (year l) (make l) (model l) (trim l) (miles l) (price l)
     (score l) (dom l) (source l) v (reasonCodes l) (buyMax l)
     (created_at l).

Definition set_score (v : option Z) (l : t) : t :=
  mk (id l) (vin l) (year l) (make l) (model l) (trim l) (miles l) (price l)
     v (dom l) (source l) (radius l) (reasonCodes l) (buyMax l)
     (created_at l).

Definition set_buyMax (v : option float) (l : t) : t :=
  mk (id l) (vin l) (year l) (make l) (model l) (trim l) (miles l) (price l)
     (score l) (dom l) (source l) (radius l) (reasonCodes l) v
     (created_at l).

Definition set_reasonCodes (v : list string) (l : t) : t :=
  mk (id l) (vin l) (year l) (make l) (model l) (trim l) (miles l) (price l)
     (score l) (dom l) (source l) (radius l) v (buyMax l)
     (created_at l).
End StoredListing.

(** ** The in-memory store: [_by_id] and [_ids_by_vin] *)

Record Store : Type := mkStore {
  _by_id : PyDict.dict StoredListing.t;
  _ids_by_vin : PyDict.dict (list string)
}.

Definition empty_store : Store := mkStore PyDict.empty PyDict.empty.

(** ** [ingest] *)

(** [(s or "").strip().upper()], the key under which a VIN is stored and
    looked up. *)
Definition vin_key (s : string) : string := PyStr.upper (PyStr.strip s).

(** [not radius]: [None] and [0] are falsy. *)
Definition radius_falsy (r : option Z) : bool :=
  match r with
  | None => true
  | Some z => z =? 0
  end.

(** The normalisation steps of the loop body of [ingest], applied to the
    deep copy [norm] of an item. *)
Definition normalize (item : StoredListing.t) : StoredListing.t :=
  let norm := item in
  let norm := StoredListing.set_vin (vin_key (StoredListing.vin norm)) norm in
  let norm := StoredListing.set_make (PyStr.strip (StoredListing.make norm)) norm in
  let norm := StoredListing.set_model (PyStr.strip (StoredListing.model norm)) norm in
  let norm :=
    match StoredListing.trim norm with
    | Some t => StoredListing.set_trim (Some (PyStr.strip t)) norm
    | None => norm
    end in
  let norm :=
    if radius_falsy (StoredListing.radius norm)
    then StoredListing.set_radius (Some 25) norm
    else norm in
  norm.

(** [x in xs] on a list of strings *)
Definition str_in (x : string) (xs : list string) : bool :=
  existsb (String.eqb x) xs.

(** One turn of the in-memory loop of [ingest]: the store after it and the
    listing appended to [out]. *)
Definition ingest_item (item : StoredListing.t) (st : Store)
  : Store * StoredListing.t :=
  let norm := normalize item in
  let by_id := PyDict.set (StoredListing.id norm) norm (_by_id st) in
  let idx := PyDict.setdefault (StoredListing.vin norm) [] (_ids_by_vin st) in
  let ids :=
    match PyDict.get (StoredListing.vin norm) idx with
    | Some l => l
    | None => []
    end in
  let idx :=
    if str_in (StoredListing.id norm) ids then idx
    else PyDict.set (StoredListing.vin norm) (ids ++ [StoredListing.id norm]) idx in
  (mkStore by_id idx, norm).

(** [ingest(listings)]: the store after the request and its response. *)
Fixpoint ingest (listings : list StoredListing.t) (st : Store)
  : Store * list StoredListing.t :=
  match listings with
  | [] => (st, [])
  | item :: rest =>
      let '(st1, norm) := ingest_item item st in
      let '(st2, out) := ingest rest st1 in
      (st2, norm :: out)
  end.

(** ** [list_listings] *)

Definition list_listings (st : Store) : list StoredListing.t :=
  PyDict.values (_by_id st).

(** ** [score] *)

(** What the loop body of [score] computes for one item before it touches
    the store: [score_val], [buy_max] (not yet rounded) and [reasons]. *)
Record Heuristic : Type := mkHeuristic {
  score_val : Z;
  buy_max : float;
  reasons : list string
}.

Definition heuristic (item : Listing.t) : result Heuristic :=
  let reasons : list string := [] in
  dom_penalty <- int_truediv (Z.max 0 (30 - Listing.dom item)) 30 ;;
  miles_penalty <- int_truediv (Z.max 0 (100000 - Listing.miles item)) 100000 ;;
  let base :=
    fadd (fmul (float_of_int 40) dom_penalty)
         (fmul (float_of_int 40) miles_penalty) in
  let '(price_boost, reasons) :=
    if py_lt (PFloat (Listing.price item)) (PInt 25000)
    then (py_min (PInt 20)
            (PFloat (fdiv (fsub (float_of_int 25000) (Listing.price item))
                          (float_of_int 1000))),
          reasons ++ ["PriceVsBaseline"])
    else (PInt 0, reasons) in
  let reasons :=
    if Listing.dom item <? 20 then reasons ++ ["LowDOM"] else reasons in
  let reasons :=
    if Listing.miles item <? 50000 then reasons ++ ["LowMiles"] else reasons in
  score_val <-
    py_int (py_max (PInt 0)
              (py_min (PInt 100) (PFloat (fadd base (to_float price_boost))))) ;;
  let buy_max :=
    to_float (py_max (PFloat (S754_zero false))
                (PFloat (fmul (Listing.price item) (literal 103 100)))) in
  let '(buy_max, reasons) :=
    if 45 <? Listing.dom item
    then (fmul (Listing.price item) (literal 98 100), reasons ++ ["AgedInventory"])
    else (buy_max, reasons) in
  ret (mkHeuristic score_val buy_max reasons).

(** [reasons or ["Heuristic"]] *)
Definition reasons_or_default (rs : list string) : list string :=
  match rs with
  | [] => ["Heuristic"]
  | _ => rs
  end.

(** The assignments to one stored listing. *)
Definition write_score (h : Heuristic) (stored : StoredListing.t)
  : StoredListing.t :=
  StoredListing.set_reasonCodes (reasons_or_default (reasons h))
    (StoredListing.set_buyMax (Some (round2 (buy_max h)))
       (StoredListing.set_score (Some (score_val h)) stored)).

(** The body of the loop over the listing ids of a VIN:
    [stored = _by_id.get(lid)], and when there is one, the assignments and
    [_by_id[lid] = stored]. *)
Definition persist_step (h : Heuristic) (by_id : PyDict.dict StoredListing.t)
  (lid : string) : PyDict.dict StoredListing.t :=
  match PyDict.get lid by_id with
  | Some stored => PyDict.set lid (write_score h stored) by_id
  | None => by_id
  end.

(** [_ids_by_vin.get(vin_key, [])] *)
Definition ids_of (key : string) (st : Store) : list string :=
  match PyDict.get key (_ids_by_vin st) with
  | Some l => l
  | None => []
  end.

(** [for lid in _ids_by_vin.get(vin_key, []): ...] *)
Definition persist (h : Heuristic) (key : string) (st : Store) : Store :=
  mkStore (fold_left (persist_step h) (ids_of key st) (_by_id st))
          (_ids_by_vin st).

(** One turn of the loop of [score]: the store after it and the response
    appended to [out], or the exception that ends the request. An
    exception of the heuristic is raised before the store is touched. *)
Definition score_item (item : Listing.t) (st : Store)
  : Store * result ScoreResponse.t :=
  match heuristic item with
  | inl e => (st, inl e)
  | inr h =>
      (persist h (vin_key (Listing.vin item)) st,
       ScoreResponse.validate
         (ScoreResponse.mk (Listing.vin item) (score_val h)
            (round2 (buy_max h)) (reasons_or_default (reasons h))))
  end.

(** [score(listings)]: the store after the request and its response; on
    an exception the items handled before it stay applied. *)
Fixpoint score (listings : list Listing.t) (st : Store)
  : Store * result (list ScoreResponse.t) :=
  match listings with
  | [] => (st, ret [])
  | item :: rest =>
      match score_item item st with
      | (st1, inl e) => (st1, inl e)
      | (st1, inr r) =>
          match score rest st1 with
          | (st2, inl e) => (st2, inl e)
          | (st2, inr out) => (st2, ret (r :: out))
          end
      end
  end.

(** ** Requests and runs of the service *)

Inductive request : Type :=
| Ingest (listings : list StoredListing.t)
| Score (listings : list Listing.t)
| ListListings.

Definition handle (rq : request) (st : Store) : Store :=
  match rq with
  | Ingest ls => fst (ingest ls st)
  | Score ls => fst (score ls st)
  | ListListings => st
  end.

Definition run (rqs : list request) (st : Store) : Store :=
  fold_left (fun s rq => handle rq s) rqs st.

(** ** [score] with the relational backend *)

(** What ends a request: a Python exception, or an error of the database
    raised by [cur.execute]. *)
Inductive Failure : Type :=
| Raised (e : PyErr)
| ForeignKeyViolation
| CheckViolation.

(** A row of the table [scores] as [_apply_schema_if_needed] declares it:
    [vin text references vehicles(vin)],
    [score int check (score between 0 and 100)], [buy_max numeric],
    [reason_codes text[]]. The columns [id] and [created_at] are filled in
    by the database: the rows are kept in the order of their insertion. *)
Module ScoreRow.
Record t : Type := mk {
  vin : string;
  score : Z;
  buy_max : float;
  reason_codes : list string
}.
End ScoreRow.

(** The two tables the insert of [score] involves: [vehicles], of which
    the foreign key reads the primary key column [vin], and [scores]. *)
Record Db : Type := mkDb {
  vehicles : list string;
  scores : list ScoreRow.t
}.

(** [insert into scores (vin, score, buy_max, reason_codes) values (...)]:
    the row is refused when its score is outside the check constraint, or
    when no vehicle has its VIN. *)
Definition insert_score (row : ScoreRow.t) (db : Db) : Failure + Db :=
  if negb ((0 <=? ScoreRow.score row) && (ScoreRow.score row <=? 100))
  then inl CheckViolation
  else if str_in (ScoreRow.vin row) (vehicles db)
  then inr (mkDb (vehicles db) (scores db ++ [row]))
  else inl ForeignKeyViolation.

(** The process: the flag [_db_enabled], the database behind
    [DATABASE_URL] and the in-memory store. *)
Record Process : Type := mkProcess {
  _db_enabled : bool;
  database : Db;
  memory : Store
}.

(** One turn of the loop of [score], both backends: the heuristic, then
    with [_db_enabled] the insert into [scores] (the statement is committed
    on its own, and its error ends the request), then the loop over the
    in-memory index, then the response. *)
Definition score_item_on (item : Listing.t) (p : Process)
  : Process * (Failure + ScoreResponse.t) :=
  match heuristic item with
  | inl e => (p, inl (Raised e))
  | inr h =>
      let key := vin_key (Listing.vin item) in
      let inserted :=
        if _db_enabled p
        then insert_score
               (ScoreRow.mk key (score_val h) (round2 (buy_max h))
                  (reasons_or_default (reasons h)))
               (database p)
        else inr (database p) in
      match inserted with
      | inl e => (p, inl e)
      | inr db =>
          (mkProcess (_db_enabled p) db (persist h key (memory p)),
           match ScoreResponse.validate
                   (ScoreResponse.mk (Listing.vin item) (score_val h)
                      (round2 (buy_max h)) (reasons_or_default (reasons h)))
           with
           | inl e => inl (Raised e)
           | inr r => inr r
           end)
      end
  end.

(** [score(listings)], both backends. *)
Fixpoint score_on (listings : list Listing.t) (p : Process)
  : Process * (Failure + list ScoreResponse.t) :=
  match listings with
  | [] => (p, inr [])
  | item :: rest =>
      match score_item_on item p with
      | (p1, inl e) => (p1, inl e)
      | (p1, inr r) =>
          match score_on rest p1 with
          | (p2, inl e) => (p2, inl e)
          | (p2, inr out) => (p2, inr (r :: out))
          end
      end
  end.

(** A process started with [DATABASE_URL] set, on a database that holds
    the schema and no row yet. *)
Definition fresh_database_process : Process :=
  mkProcess true (mkDb [] []) empty_store.

(** A process started without [DATABASE_URL]. *)
Definition fresh_memory_process : Process :=
  mkProcess false (mkDb [] []) empty_store.

(** ** The heuristic in the words of the specification *)

Definition spec_domPenalty (dom : Z) : result float :=
  int_truediv (Z.max 0 (30 - dom)) 30.

Definition spec_milesPenalty (miles : Z) : result float :=
  int_truediv (Z.max 0 (100000 - miles)) 100000.

Definition spec_base (item : Listing.t) : result float :=
  domPenalty <- spec_domPenalty (Listing.dom item) ;;
  milesPenalty <- spec_milesPenalty (Listing.miles item) ;;
  ret (fadd (fmul (float_of_int 40) domPenalty)
            (fmul (float_of_int 40) milesPenalty)).

Definition spec_priceBoost (price : float) : float :=
  if fltb price (float_of_int 25000)
  then fmin (float_of_int 20)
         (fdiv (fsub (float_of_int 25000) price) (float_of_int 1000))
  else float_of_int 0.

(** [clamp(x, lo, hi)] *)
Definition spec_clamp (x lo hi : float) : float := fmax lo (fmin hi x).

Definition spec_buyMax (item : Listing.t) : float :=
  if 45 <? Listing.dom item
  then fmul (Listing.price item) (literal 98 100)
  else fmax (float_of_int 0) (fmul (Listing.price item) (literal 103 100)).

Definition spec_reasons (item : Listing.t) : list string :=
  (if fltb (Listing.price item) (float_of_int 25000)
   then ["PriceVsBaseline"] else []) ++
  (if Listing.dom item <? 20 then ["LowDOM"] else []) ++
  (if Listing.miles item <? 50000 then ["LowMiles"] else []) ++
  (if 45 <? Listing.dom item then ["AgedInventory"] else []).

(** The listing facts on which the two true divisions stay within the
    range of a float. The data model's non-negative mileage and days on
    market are such facts. *)
Definition in_float_range (item : Listing.t) : Prop :=
  - 2 ^ 1000 <= Listing.dom item /\ - 2 ^ 1000 <= Listing.miles item.

(** ** Predicates on stores and runs *)

(** Two VIN strings that differ only in letter case and in surrounding
    whitespace. *)
Definition vin_variant (a b : string) : Prop :=
  exists pre post pre' post' core core',
    a = (pre ++ core ++ post)%string /\
    b = (pre' ++ core' ++ post')%string /\
    PyStr.all_space pre = true /\ PyStr.all_space post = true /\
    PyStr.all_space pre' = true /\ PyStr.all_space post' = true /\
    PyStr.upper core = PyStr.upper core'.

(** Two stored listings with the same posted facts: every field but score,
    buyMax and reasonCodes. *)
Definition same_posted_fields (a b : StoredListing.t) : Prop :=
  StoredListing.id a = StoredListing.id b /\
  StoredListing.vin a = StoredListing.vin b /\
  StoredListing.year a = StoredListing.year b /\
  StoredListing.make a = StoredListing.make b /\
  StoredListing.model a = StoredListing.model b /\
  StoredListing.trim a = StoredListing.trim b /\
  StoredListing.miles a = StoredListing.miles b /\
  StoredListing.price a = StoredListing.price b /\
  StoredListing.dom a = StoredListing.dom b /\
  StoredListing.source a = StoredListing.source b /\
  StoredListing.radius a = StoredListing.radius b /\
  StoredListing.created_at a = StoredListing.created_at b.

(** The stores the service reaches: the keys of [_by_id] are distinct and
    every stored listing is indexed under its VIN. *)
Definition store_ok (st : Store) : Prop :=
  NoDup (PyDict.keys (_by_id st)) /\
  forall lid l, PyDict.get lid (_by_id st) = Some l ->
    exists ids,
      PyDict.get (StoredListing.vin l) (_ids_by_vin st) = Some ids /\ In lid ids.

(** The listing id [lid] is stored and indexed under [key]. *)
Definition tracked (lid key : string) (st : Store) : Prop :=
  (exists l, PyDict.get lid (_by_id st) = Some l) /\
  exists ids, PyDict.get key (_ids_by_vin st) = Some ids /\ In lid ids.


(** A listing with its score, buyMax and reason codes blanked. *)
Definition erase_scores (l : StoredListing.t) : StoredListing.t :=
  StoredListing.set_reasonCodes []
    (StoredListing.set_buyMax None (StoredListing.set_score None l)).



(** Every listing a run ingests satisfies [Q]. *)
Definition ingests (Q : StoredListing.t -> Prop) (rqs : list request) : Prop :=
  Forall
    (fun rq =>
       match rq with
       | Ingest ls => Forall Q ls
       | _ => True
       end)
    rqs.

(** No request of the run ingests a listing whose VIN has the key [key]. *)
Definition never_ingested (key : string) (rqs : list request) : Prop :=
  ingests (fun l => vin_key (StoredListing.vin l) <> key) rqs.

(** Every VIN a run ingests is ASCII. *)
Definition ingests_ascii_vins (rqs : list request) : Prop :=
  ingests (fun l => PyStr.isascii (StoredListing.vin l) = true) rqs.



(** The radius is set and positive. *)
Definition radius_positive (l : StoredListing.t) : Prop :=
  exists r, StoredListing.radius l = Some r /\ 0 < r.

(** The list is ordered newest-created-first. *)
Definition newest_first (ls : list StoredListing.t) : Prop :=
  StronglySorted
    (fun a b => StoredListing.created_at b <= StoredListing.created_at a) ls.

(** ** Sample data *)

(** The listing facts of the specification's worked example. *)
Definition example_fact (vin : string) (source : option string) : Listing.t :=
  Listing.mk vin (float_of_int 20000) 30000 10 source.

(** A raw listing as a client posts it: no score yet. *)
Definition example_raw (id vin : string) (radius : option Z) (created_at : Z)
  : StoredListing.t :=
  StoredListing.mk id vin 2019 " Honda" "Civic " (Some " EX ") 30000
    (float_of_int 20000) None 10 (Some "dealer") radius [] None created_at.


(** ** [notify] *)

(** [class NotifyItem(BaseModel)]; a channel left out of the request is
    ["email"] already, an explicit null is [None]. *)
Module NotifyItem.
Record t : Type := mk {
  vin : string;
  channel : option string;
  message : option string
}.
End NotifyItem.

(** [class NotifyResponse(BaseModel)] *)
Module NotifyResponse.
Record t : Type := mk {
  vin : string;
  notified : bool;
  channel : string
}.
End NotifyResponse.

(** [x or d] on an optional string: [None] and the empty string are
    falsy. *)
Definition str_or (x : option string) (d : string) : string :=
  match x with
  | None | Some EmptyString => d
  | Some s => s
  end.

(** The dictionary [notify] appends to [_notifications] for one item:
    [{"vin": vin_key, "channel": it.channel or "email", "message": msg}]. *)
Definition notify_entry (it : NotifyItem.t) : PyDict.dict string :=
  let key := vin_key (NotifyItem.vin it) in
  let msg := str_or (NotifyItem.message it) ("Notify for VIN " ++ key)%string in
  [("vin", key);
   ("channel", str_or (NotifyItem.channel it) "email");
   ("message", msg)].

(** The response [notify] appends to [results] for one item. *)
Definition notify_response (it : NotifyItem.t) : NotifyResponse.t :=
  NotifyResponse.mk (vin_key (NotifyItem.vin it)) true
    (str_or (NotifyItem.channel it) "email").

(** [notify(items)] on the log [_notifications]: the log after the request
    and its response. *)
Fixpoint notify (items : list NotifyItem.t) (log : list (PyDict.dict string))
  : list (PyDict.dict string) * list NotifyResponse.t :=
  match items with
  | [] => (log, [])
  | it :: rest =>
      let log1 := log ++ [notify_entry it] in
      let '(log2, results) := notify rest log1 in
      (log2, notify_response it :: results)
  end.

(** ** Further predicates on stores *)

(** A listing as [ingest] stores it: the VIN trimmed and in upper case,
    make and model trimmed, the radius set and not zero. *)
Definition canonical (l : StoredListing.t) : Prop :=
  PyStr.strip (StoredListing.vin l) = StoredListing.vin l /\
  PyStr.upper (StoredListing.vin l) = StoredListing.vin l /\
  PyStr.strip (StoredListing.make l) = StoredListing.make l /\
  PyStr.strip (StoredListing.model l) = StoredListing.model l /\
  radius_falsy (StoredListing.radius l) = false.

(** Every entry of [_by_id] sits under the id of its listing and holds a
    canonical listing. *)
Definition entries_canonical (st : Store) : Prop :=
  forall k l, In (k, l) (_by_id st) -> StoredListing.id l = k /\ canonical l.

(** No id list of the index [_ids_by_vin] repeats an id. *)
Definition index_nodup (st : Store) : Prop :=
  forall key ids, PyDict.get key (_ids_by_vin st) = Some ids -> NoDup ids.

(** No threshold of the heuristic fires on the listing facts. *)
Definition no_threshold (item : Listing.t) : Prop :=
  fltb (Listing.price item) (float_of_int 25000) = false /\
  20 <= Listing.dom item <= 45 /\
  50000 <= Listing.miles item.

(** Listing facts whose dom is so far below zero that the true division
    of the heuristic overflows. *)
Definition example_overflow : Listing.t :=
  Listing.mk "X1" (float_of_int 20000) 30000 (- 2 ^ 1100) None.

(** ** Proof automation *)

(** Case analysis on the optional trim and on the radius of a listing,
    the two fields [normalize] branches on. *)
Ltac normalize_cases item :=
  destruct item as [? ? ? ? ? [?|] ? ? ? ? ? [[|?|?]|] ? ? ?];
  unfold normalize; cbn.

(** * Properties *)

(** ** Strings *)

Section StringFacts.
Import PyStr.

Lemma isspace_upper_char (c : ascii) : isspace (upper_char c) = isspace c.
Proof.
  destruct c as [[] [] [] [] [] [] [] []]; reflexivity.
Qed.

Lemma upper_char_idem (c : ascii) : upper_char (upper_char c) = upper_char c.
Proof.
  destruct c as [[] [] [] [] [] [] [] []]; reflexivity.
Qed.

Lemma upper_idem (s : string) : upper (upper s) = upper s.
Proof.
  induction s as [|c s IH]; simpl; [reflexivity|].
  now rewrite upper_char_idem, IH.
Qed.

Lemma lstrip_upper (s : string) : lstrip (upper s) = upper (lstrip s).
Proof.
  induction s as [|c s IH]; simpl; [reflexivity|].
  rewrite isspace_upper_char. destruct (isspace c); [exact IH|reflexivity].
Qed.

Lemma rstrip_upper (s : string) : rstrip (upper s) = upper (rstrip s).
Proof.
  induction s as [|c s IH]; simpl; [reflexivity|].
  rewrite IH, isspace_upper_char.
  destruct (rstrip s); simpl; [destruct (isspace c)|]; reflexivity.
Qed.

Lemma strip_upper (s : string) : strip (upper s) = upper (strip s).
Proof. unfold strip. now rewrite lstrip_upper, rstrip_upper. Qed.

Lemma rstrip_empty_lstrip (s : string) : rstrip s = "" -> lstrip s = "".
Proof.
  induction s as [|c s IH]; simpl; [reflexivity|].
  destruct (rstrip s); [|discriminate].
  destruct (isspace c); [intros _; now apply IH|discriminate].
Qed.

Lemma lstrip_rstrip (s : string) : lstrip (rstrip s) = rstrip (lstrip s).
Proof.
  induction s as [|c s IH]; simpl; [reflexivity|].
  destruct (isspace c) eqn:Hc.
  - destruct (rstrip s) eqn:Hr.
    + simpl. rewrite <- IH. reflexivity.
    + rewrite <- IH. simpl. rewrite Hc. reflexivity.
  - simpl. destruct (rstrip s); simpl; rewrite Hc; reflexivity.
Qed.

Lemma lstrip_idem (s : string) : lstrip (lstrip s) = lstrip s.
Proof.
  induction s as [|c s IH]; simpl; [reflexivity|].
  destruct (isspace c) eqn:Hc; [exact IH|]. simpl. now rewrite Hc.
Qed.

Lemma rstrip_idem (s : string) : rstrip (rstrip s) = rstrip s.
Proof.
  induction s as [|c s IH]; simpl; [reflexivity|].
  destruct (rstrip s) as [|c' r] eqn:Hr.
  - destruct (isspace c) eqn:Hc; simpl; [reflexivity|]. now rewrite Hc.
  - simpl in *. rewrite IH. reflexivity.
Qed.

Lemma strip_idem (s : string) : strip (strip s) = strip s.
Proof.
  unfold strip. rewrite lstrip_rstrip, lstrip_idem, rstrip_idem. reflexivity.
Qed.

Lemma vin_key_idem (s : string) : vin_key (vin_key s) = vin_key s.
Proof.
  unfold vin_key. rewrite strip_upper, strip_idem, upper_idem. reflexivity.
Qed.

Lemma lstrip_app_space (pre s : string) :
  all_space pre = true -> lstrip (pre ++ s) = lstrip s.
Proof.
  induction pre as [|c pre IH]; simpl; [reflexivity|].
  intros H. apply andb_true_iff in H as [Hc Hp]. rewrite Hc. now apply IH.
Qed.

Lemma rstrip_all_space (s : string) : all_space s = true -> rstrip s = "".
Proof.
  induction s as [|c s IH]; simpl; [reflexivity|].
  intros H. apply andb_true_iff in H as [Hc Hp]. rewrite (IH Hp), Hc. reflexivity.
Qed.

Lemma rstrip_app_space (s post : string) :
  all_space post = true -> rstrip (s ++ post) = rstrip s.
Proof.
  intros H. induction s as [|c s IH]; simpl.
  - now apply rstrip_all_space.
  - rewrite IH. reflexivity.
Qed.

Lemma strip_padding (pre core post : string) :
  all_space pre = true -> all_space post = true ->
  strip (pre ++ core ++ post) = strip core.
Proof.
  intros Hpre Hpost. unfold strip.
  rewrite lstrip_app_space by exact Hpre.
  rewrite <- !lstrip_rstrip. rewrite rstrip_app_space by exact Hpost. reflexivity.
Qed.

Lemma vin_variant_key (a b : string) : vin_variant a b -> vin_key a = vin_key b.
Proof.
  intros (pre & post & pre' & post' & core & core' & -> & -> & H1 & H2 & H3 & H4 & Hu).
  unfold vin_key. rewrite !strip_padding by assumption.
  rewrite <- !strip_upper, Hu. reflexivity.
Qed.

End StringFacts.

(** ** Binary64 arithmetic *)

Lemma digits2_pos_size (p : positive) : digits2_pos p = Pos.size p.
Proof. induction p; simpl; congruence. Qed.

Lemma Zdigits2_nonneg (m : Z) : 0 <= Zdigits2 m.
Proof. destruct m; simpl; lia. Qed.

Lemma shr_1_digits (s : shr_record) :
  Zdigits2 (shr_m (shr_1 s)) = Z.max 0 (Zdigits2 (shr_m s) - 1).
Proof.
  destruct s as [m r t]; destruct m as [|p|p]; [reflexivity| |];
    destruct p; cbn [shr_1 shr_m Zdigits2 digits2_pos]; lia.
Qed.

Lemma iter_shr_1_digits (p : positive) (s : shr_record) :
  Zdigits2 (shr_m (iter_pos shr_1 p s)) = Z.max 0 (Zdigits2 (shr_m s) - Zpos p).
Proof.
  revert s; induction p as [p IH|p IH|]; intro s; simpl iter_pos.
  - rewrite !IH, shr_1_digits. lia.
  - rewrite !IH. lia.
  - apply shr_1_digits.
Qed.

Lemma shr_record_of_loc_m (m : Z) (l : location) : shr_m (shr_record_of_loc m l) = m.
Proof. destruct l as [|[]]; reflexivity. Qed.

Lemma shr_fexp_digits (m e : Z) (l : location) :
  Zdigits2 (shr_m (fst (shr_fexp prec emax m e l))) <= prec.
Proof.
  unfold shr_fexp, shr.
  pose proof (Zdigits2_nonneg m) as Hm.
  destruct (fexp prec emax (Zdigits2 m + e) - e) as [|p|p] eqn:E; simpl fst;
    try rewrite iter_shr_1_digits; rewrite shr_record_of_loc_m;
    unfold fexp, prec, emax, emin in *; lia.
Qed.

Lemma binary_round_aux_mant_ok (s : bool) (m e : Z) (l : location) :
  mant_ok (binary_round_aux prec emax s m e l).
Proof.
  unfold binary_round_aux.
  destruct (shr_fexp prec emax m e l) as [mrs' e'].
  pose proof (shr_fexp_digits (round_nearest_even (shr_m mrs') (loc_of_shr_record mrs')) e' loc_Exact) as H.
  destruct (shr_fexp prec emax _ e' loc_Exact) as [mrs'' e'']; simpl fst in H.
  destruct (shr_m mrs'') as [|p|p]; try exact I.
  destruct (e'' <=? _); [exact H | exact I].
Qed.

Lemma fmul_mant_ok (x y : float) : mant_ok (fmul x y).
Proof.
  destruct x as [| | |sx mx ex], y as [| | |sy my ey]; simpl; auto.
  apply binary_round_aux_mant_ok.
Qed.

Lemma fdiv_mant_ok (x y : float) : mant_ok (fdiv x y).
Proof.
  destruct x as [| | |sx mx ex], y as [| | |sy my ey]; simpl; auto.
  unfold fdiv, SFdiv.
  destruct (SFdiv_core_binary prec emax (Z.pos mx) ex (Z.pos my) ey) as [[mz ez] lz].
  apply binary_round_aux_mant_ok.
Qed.

Lemma binary_normalize_mant_ok (m e : Z) (sz : bool) :
  mant_ok (binary_normalize prec emax m e sz).
Proof.
  destruct m; simpl; auto; unfold binary_round;
  match goal with |- context [shl_align ?a ?b ?c] => destruct (shl_align a b c) end;
  apply binary_round_aux_mant_ok.
Qed.

Lemma fadd_mant_ok (x y : float) : mant_ok x -> mant_ok y -> mant_ok (fadd x y).
Proof.
  destruct x as [sx|sx| |sx mx ex], y as [sy|sy| |sy my ey]; simpl; auto;
    try (destruct sx, sy; simpl; auto; fail).
  intros _ _. apply binary_normalize_mant_ok.
Qed.

Lemma shr_1_nonneg (s : shr_record) : 0 <= shr_m s -> 0 <= shr_m (shr_1 s).
Proof.
  destruct s as [m r t]; destruct m as [|p|p]; cbn [shr_m]; intros H.
  - cbn [shr_1 shr_m]. lia.
  - destruct p; cbn [shr_1 shr_m]; lia.
  - lia.
Qed.

Lemma iter_shr_1_nonneg (p : positive) (s : shr_record) :
  0 <= shr_m s -> 0 <= shr_m (iter_pos shr_1 p s).
Proof.
  revert s; induction p as [p IH|p IH|]; intros s H; simpl iter_pos.
  - apply IH, IH, shr_1_nonneg, H.
  - apply IH, IH, H.
  - apply shr_1_nonneg, H.
Qed.

Lemma Zdigits2_log2 (m : Z) : 0 < m -> Zdigits2 m = Z.log2 m + 1.
Proof.
  destruct m as [|p|p]; try lia; intros _.
  destruct p; cbn [Zdigits2 digits2_pos Z.log2]; rewrite ?digits2_pos_size; lia.
Qed.

Lemma Zdigits2_le (a b : Z) : 0 <= a <= b -> Zdigits2 a <= Zdigits2 b.
Proof.
  intros [Ha Hab].
  destruct (Z.eq_dec a 0) as [->|Hn]; [apply Zdigits2_nonneg|].
  rewrite !Zdigits2_log2 by lia.
  pose proof (Z.log2_le_mono a b Hab); lia.
Qed.

Lemma Zdigits2_succ (a : Z) : 0 <= a -> Zdigits2 (a + 1) <= Zdigits2 a + 1.
Proof.
  intros Ha.
  destruct (Z.eq_dec a 0) as [->|Hn]; [simpl; lia|].
  rewrite !Zdigits2_log2 by lia.
  pose proof (Z.log2_succ_le a). unfold Z.succ in *. lia.
Qed.

Lemma round_nearest_even_range (m : Z) (l : location) :
  m <= round_nearest_even m l <= m + 1.
Proof.
  destruct l as [|[]]; cbn [round_nearest_even]; try lia.
  destruct (Z.even m); lia.
Qed.

(** What [shr_fexp] returns: the exponent and the width of the mantissa. *)
Lemma shr_fexp_spec (m e : Z) (l : location) :
  0 <= m ->
  let r := shr_fexp prec emax m e l in
  snd r = Z.max e (fexp prec emax (Zdigits2 m + e)) /\
  0 <= shr_m (fst r) /\
  Zdigits2 (shr_m (fst r)) + snd r <= Z.max (snd r) (Zdigits2 m + e).
Proof.
  intros Hm. unfold shr_fexp, shr.
  pose proof (Zdigits2_nonneg m) as Hd.
  destruct (fexp prec emax (Zdigits2 m + e) - e) as [|p|p] eqn:E; cbn [fst snd];
    try rewrite iter_shr_1_digits; rewrite ?shr_record_of_loc_m.
  - repeat split; lia.
  - repeat split; try lia.
    apply iter_shr_1_nonneg. rewrite shr_record_of_loc_m. exact Hm.
  - repeat split; lia.
Qed.

Lemma binary_round_aux_finite (s : bool) (m e : Z) (l : location) :
  0 <= m -> Zdigits2 m + e <= 1023 -> e <= 971 ->
  is_finite_or_zero (binary_round_aux prec emax s m e l) = true.
Proof.
  intros Hm Hd He. unfold binary_round_aux.
  pose proof (shr_fexp_spec m e l Hm) as H1. cbv zeta in H1.
  destruct (shr_fexp prec emax m e l) as [mrs' e']. cbn [fst snd] in H1.
  destruct H1 as (He' & Hm' & Hd').
  pose proof (round_nearest_even_range (shr_m mrs') (loc_of_shr_record mrs')) as Hr.
  set (mr := round_nearest_even (shr_m mrs') (loc_of_shr_record mrs')) in *.
  assert (Hmr : 0 <= mr) by lia.
  pose proof (shr_fexp_spec mr e' loc_Exact Hmr) as H2. cbv zeta in H2.
  destruct (shr_fexp prec emax mr e' loc_Exact) as [mrs'' e'']. cbn [fst snd] in H2.
  destruct H2 as (He'' & Hm'' & _).
  assert (Hdr : Zdigits2 mr <= Zdigits2 (shr_m mrs') + 1).
  { etransitivity; [apply Zdigits2_le with (b := shr_m mrs' + 1); lia|].
    apply Zdigits2_succ; lia. }
  assert (Hle : e'' <= 971).
  { unfold fexp, prec, emax, emin in *. lia. }
  destruct (shr_m mrs'') as [|p|p]; try reflexivity; try lia.
  apply Z.leb_le in Hle. unfold emax, prec. cbn [Z.sub]. 
  change (1024 - 53) with 971. rewrite Hle. reflexivity.
Qed.

Lemma Zdigits2_shiftl (m s : Z) : 0 < m -> 0 <= s -> Zdigits2 (Z.shiftl m s) = Zdigits2 m + s.
Proof.
  intros Hm Hs.
  assert (0 < Z.shiftl m s).
  { rewrite Z.shiftl_mul_pow2 by lia. apply Z.mul_pos_pos; [lia|]. apply Z.pow_pos_nonneg; lia. }
  rewrite !Zdigits2_log2 by lia.
  rewrite Z.log2_shiftl by lia. lia.
Qed.

Lemma SFdiv_core_binary_spec (p q : positive) :
  let '(mz, ez, lz) := SFdiv_core_binary prec emax (Zpos p) 0 (Zpos q) 0 in
  0 <= mz /\ Zdigits2 mz + ez <= Zdigits2 (Zpos p) /\ ez <= 0.
Proof.
  unfold SFdiv_core_binary.
  set (e' := Z.min _ _).
  assert (He' : e' <= 0) by (unfold e'; lia).
  set (s := 0 - 0 - e').
  set (m' := match s with Z.pos _ => Z.shiftl (Z.pos p) s | 0 => Z.pos p | Z.neg _ => 0 end).
  assert (Hm' : 0 < m' /\ Zdigits2 m' = Zdigits2 (Zpos p) + s).
  { assert (Hs : 0 <= s) by (unfold s; lia).
    unfold m'. clearbody s. clear m'. destruct s as [|k|k]; cbv iota.
    - split; [lia|]. rewrite Z.add_0_r. reflexivity.
    - split.
      + rewrite Z.shiftl_mul_pow2 by lia. apply Z.mul_pos_pos; [lia|]. apply Z.pow_pos_nonneg; lia.
      + apply Zdigits2_shiftl; lia.
    - lia. }
  destruct Hm' as [Hpos Hdig].
  pose proof (Z_div_mod m' (Zpos q) ltac:(lia)) as Hdm.
  destruct (Z.div_eucl m' (Z.pos q)) as [qq r].
  destruct Hdm as [Heq Hr].
  assert (Hq0 : 0 <= qq) by nia.
  assert (Hqm : qq <= m') by nia.
  repeat split; try lia.
  pose proof (Zdigits2_le qq m' ltac:(lia)). unfold s in *. lia.
Qed.

Lemma int_truediv_defined (a : Z) (q : positive) :
  0 <= a < 2 ^ 1023 ->
  exists f, int_truediv a (Zpos q) = inr f /\ mant_ok f.
Proof.
  intros [Ha Hlt]. destruct a as [|p|p]; try lia.
  - eexists; split; [reflexivity|exact I].
  - cbn [int_truediv]. unfold SFdiv.
    pose proof (SFdiv_core_binary_spec p q) as H.
    destruct (SFdiv_core_binary prec emax (Z.pos p) 0 (Z.pos q) 0) as [[mz ez] lz].
    destruct H as (Hm & Hd & He).
    assert (Hp : Zdigits2 (Zpos p) <= 1023).
    { rewrite Zdigits2_log2 by lia.
      assert (Z.log2 (Zpos p) < 1023) by (apply Z.log2_lt_pow2; lia). lia. }
    pose proof (binary_round_aux_finite false mz ez lz Hm ltac:(lia) ltac:(lia)) as Hf.
    pose proof (binary_round_aux_mant_ok false mz ez lz) as Hk.
    cbn [xorb].
    destruct (binary_round_aux prec emax false mz ez lz); try discriminate;
      eexists; split; try reflexivity; auto.
Qed.

Lemma float_of_int_100 : float_of_int 100 = S754_finite false 7036874417766400 (-46).
Proof. reflexivity. Qed.

Lemma int_of_float_below_100 (x : float) :
  mant_ok x -> fltb (float_of_int 0) x = true -> fltb x (float_of_int 100) = true ->
  exists z, int_of_float x = inr z /\ 0 <= z <= 99.
Proof.
  intros Hk H0 H100. rewrite float_of_int_100 in H100.
  destruct x as [s|s| |s m e]; try discriminate.
  - destruct s; discriminate.
  - destruct s; [discriminate|]. clear H0.
    cbn [mant_ok] in Hk. unfold prec in Hk.
    assert (Hm : Zpos m < 9007199254740992).
    { pose proof (Pos.size_gt m) as Hs. rewrite digits2_pos_size in Hk.
      apply Pos2Z.pos_lt_pos in Hs. rewrite Pos2Z.inj_pow in Hs.
      eapply Z.lt_le_trans; [exact Hs|].
      change 9007199254740992 with (2 ^ 53).
      apply Z.pow_le_mono_r; [reflexivity|exact Hk]. }
    unfold fltb, SFltb, SFcompare in H100.
    destruct (Z.compare_spec e (-46)) as [He|He|He]; try discriminate H100.
    + subst e. rewrite Pos.compare_cont_spec in H100.
      destruct (m ?= 7036874417766400)%positive eqn:Hc;
        cbn [Pos.switch_Eq] in H100; try discriminate H100.
      apply (Pos2Z.pos_lt_pos m 7036874417766400) in Hc.
      exists (Z.pos m / 2 ^ Zpos 46); cbn [int_of_float cond_Zopp ret]; split; [reflexivity|].
      change (2 ^ Zpos 46) with 70368744177664.
      split; [apply Z.div_pos; lia|].
      assert (Z.pos m / 70368744177664 < 100); [|lia].
      apply Z.div_lt_upper_bound; lia.
    + destruct e as [|k|k]; try lia.
      exists (Z.pos m / 2 ^ Zpos k); cbn [int_of_float cond_Zopp ret]; split; [reflexivity|].
      assert (H2 : 140737488355328 <= 2 ^ Zpos k).
      { change 140737488355328 with (2 ^ 47). apply Z.pow_le_mono_r; lia. }
      generalize dependent (2 ^ Zpos k). intros P HP.
      split; [apply Z.div_pos; lia|].
      assert (Z.pos m / P < 64); [|lia].
      apply Z.div_lt_upper_bound; lia.
Qed.

(** [int] of a positive float with a fractional part is the floor of its
    exact value [m / 2^k]. *)
Lemma int_of_float_floor (m k : positive) (z : Z) :
  int_of_float (S754_finite false m (Zneg k)) = inr z ->
  z * 2 ^ Zpos k <= Zpos m < (z + 1) * 2 ^ Zpos k.
Proof.
  cbn [int_of_float cond_Zopp ret]. intros H. injection H as <-.
  change (Z.pow_pos 2 k) with (2 ^ Zpos k).
  assert (Hp : 0 < 2 ^ Zpos k) by (apply Z.pow_pos_nonneg; lia).
  generalize dependent (2 ^ Zpos k). intros P HP.
  pose proof (Z.mul_div_le (Zpos m) P HP) as Hlo.
  pose proof (Z.mul_succ_div_gt (Zpos m) P HP) as Hhi.
  unfold Z.succ in Hhi. rewrite (Z.mul_comm P) in Hlo, Hhi.
  split; assumption.
Qed.

(** [round(x, 2)] goes through a nearest number of hundredths: the exact
    value [m / 2^k] times 100 and [hundredths m (-k)] differ by one half at
    most. *)
Lemma div_half_even_nearest (a b : Z) :
  0 < b -> 2 * Z.abs (a - div_half_even a b * b) <= b.
Proof.
  intros Hb. unfold div_half_even.
  pose proof (Z.div_mod a b ltac:(lia)) as Hdm.
  pose proof (Z.mod_pos_bound a b Hb) as Hr.
  generalize dependent (a mod b). generalize dependent (a / b). intros q r Hdm Hr.
  destruct (Z.compare_spec (2 * r) b); [destruct (Z.even q)| |]; nia.
Qed.

Lemma hundredths_nearest (m k : positive) :
  2 * Z.abs (100 * Zpos m - hundredths m (Zneg k) * 2 ^ Zpos k) <= 2 ^ Zpos k.
Proof.
  cbn [hundredths]. apply div_half_even_nearest.
  apply Z.pow_pos_nonneg; lia.
Qed.




Lemma clamp_pipeline (x : float) :
  to_float (py_max (PInt 0) (py_min (PInt 100) (PFloat x))) =
  spec_clamp x (float_of_int 0) (float_of_int 100).
Proof.
  unfold spec_clamp, fmax, fmin, py_max, py_min, py_lt. cbn [to_float].
  destruct (fltb x (float_of_int 100)); cbn [to_float].
  - destruct (fltb (float_of_int 0) x); reflexivity.
  - reflexivity.
Qed.

Lemma clamp_score (x : float) :
  mant_ok x ->
  exists z,
    py_int (py_max (PInt 0) (py_min (PInt 100) (PFloat x))) = inr z /\
    int_of_float (spec_clamp x (float_of_int 0) (float_of_int 100)) = inr z /\
    0 <= z <= 100.
Proof.
  intros Hk. rewrite <- clamp_pipeline.
  unfold py_max, py_min, py_lt. cbn [to_float].
  destruct (fltb x (float_of_int 100)) eqn:H100; cbn [to_float].
  - destruct (fltb (float_of_int 0) x) eqn:H0; cbn [py_int to_float].
    + destruct (int_of_float_below_100 x Hk H0 H100) as (z & Hz & Hb).
      exists z. repeat split; auto; lia.
    + exists 0. repeat split; auto; try lia.
  - exists 100. repeat split; auto; lia.
Qed.

(** ** The heuristic *)

Lemma price_boost_pipeline (price : float) :
  to_float
    (fst (if py_lt (PFloat price) (PInt 25000)
          then (py_min (PInt 20)
                  (PFloat (fdiv (fsub (float_of_int 25000) price) (float_of_int 1000))),
                ([] : list string) ++ ["PriceVsBaseline"])
          else (PInt 0, []))) = spec_priceBoost price.
Proof.
  unfold spec_priceBoost, py_lt. cbn [to_float].
  destruct (fltb price (float_of_int 25000)); cbn [fst]; [|reflexivity].
  unfold py_min, py_lt, fmin. cbn [to_float].
  destruct (fltb _ (float_of_int 20)); reflexivity.
Qed.

Lemma spec_priceBoost_mant_ok (price : float) : mant_ok (spec_priceBoost price).
Proof.
  unfold spec_priceBoost, fmin.
  destruct (fltb price _); [|exact I].
  destruct (fltb _ _); [apply fdiv_mant_ok|].
  vm_compute. discriminate.
Qed.

Lemma buy_max_pipeline (y : float) :
  to_float (py_max (PFloat (S754_zero false)) (PFloat y)) = fmax (float_of_int 0) y.
Proof.
  unfold py_max, py_lt, fmax. cbn [to_float].
  change (float_of_int 0) with (S754_zero false).
  destruct (fltb (S754_zero false) y); reflexivity.
Qed.

Lemma heuristic_inv (item : Listing.t) (h : Heuristic) :
  heuristic item = inr h ->
  exists b,
    spec_base item = inr b /\
    mant_ok b /\
    py_int (py_max (PInt 0)
              (py_min (PInt 100)
                 (PFloat (fadd b (spec_priceBoost (Listing.price item)))))) =
      inr (score_val h) /\
    buy_max h = spec_buyMax item /\
    reasons h = spec_reasons item.
Proof.
  unfold heuristic, spec_base, spec_domPenalty, spec_milesPenalty, bind.
  destruct (int_truediv (Z.max 0 (30 - Listing.dom item)) 30) as [e|dp]; [discriminate|].
  destruct (int_truediv (Z.max 0 (100000 - Listing.miles item)) 100000) as [e|mp];
    [discriminate|].
  set (b := fadd (fmul (float_of_int 40) dp) (fmul (float_of_int 40) mp)).
  pose proof (price_boost_pipeline (Listing.price item)) as Hpb.
  rewrite buy_max_pipeline.
  unfold spec_reasons, spec_buyMax.
  change (py_lt (PFloat (Listing.price item)) (PInt 25000))
    with (fltb (Listing.price item) (float_of_int 25000)) in *.
  destruct (fltb (Listing.price item) (float_of_int 25000)); cbn [fst] in Hpb;
    rewrite Hpb; clear Hpb;
    (destruct (py_int _) as [e|sv] eqn:Hsv; [discriminate|]);
    destruct (Listing.dom item <? 20), (Listing.miles item <? 50000),
      (45 <? Listing.dom item);
    intros H; injection H as <-; cbn [score_val buy_max reasons];
    exists b; (split; [reflexivity|]); (split; [apply fadd_mant_ok; apply fmul_mant_ok|]);
    repeat split; try reflexivity; exact Hsv.
Qed.

Lemma heuristic_defined (item : Listing.t) :
  in_float_range item -> exists h, heuristic item = inr h.
Proof.
  intros [Hd Hm].
  destruct (int_truediv_defined (Z.max 0 (30 - Listing.dom item)) 30) as (dp & Hdp & Hkd).
  { split; [lia|]. 
    assert (30 + 2 ^ 1000 < 2 ^ 1023) by reflexivity. lia. }
  destruct (int_truediv_defined (Z.max 0 (100000 - Listing.miles item)) 100000) as (mp & Hmp & Hkm).
  { split; [lia|].
    assert (100000 + 2 ^ 1000 < 2 ^ 1023) by reflexivity. lia. }
  unfold heuristic, bind. rewrite Hdp, Hmp.
  set (b := fadd (fmul (float_of_int 40) dp) (fmul (float_of_int 40) mp)).
  pose proof (price_boost_pipeline (Listing.price item)) as Hpb.
  destruct (if py_lt (PFloat (Listing.price item)) (PInt 25000) then _ else _)
    as [pb rs] eqn:E.
  cbn [fst] in Hpb. rewrite Hpb.
  destruct (clamp_score (fadd b (spec_priceBoost (Listing.price item)))) as (z & Hz & _).
  { apply fadd_mant_ok; [apply fadd_mant_ok; apply fmul_mant_ok|apply spec_priceBoost_mant_ok]. }
  rewrite Hz.
  destruct (45 <? Listing.dom item); eexists; reflexivity.
Qed.

(** ** Dictionaries and the store *)

Section DictFacts.
Context {V : Type}.
Implicit Types (d : PyDict.dict V) (k : string) (v : V).

Lemma get_set k k' v d :
  PyDict.get k' (PyDict.set k v d) = if String.eqb k' k then Some v else PyDict.get k' d.
Proof.
  induction d as [|[k0 v0] d IH]; simpl.
  - destruct (String.eqb k' k); reflexivity.
  - destruct (String.eqb k k0) eqn:E; simpl.
    + apply String.eqb_eq in E; subst k0.
      destruct (String.eqb k' k); reflexivity.
    + rewrite IH. destruct (String.eqb k' k0) eqn:E'; [|reflexivity].
      apply String.eqb_eq in E'; subst k0.
      rewrite String.eqb_sym, E. reflexivity.
Qed.

Lemma get_set_same k v d : PyDict.get k (PyDict.set k v d) = Some v.
Proof. rewrite get_set, String.eqb_refl. reflexivity. Qed.

Lemma get_None_keys k d : PyDict.get k d = None <-> ~ In k (PyDict.keys d).
Proof.
  induction d as [|[k0 v0] d IH]; simpl; [tauto|].
  destruct (String.eqb k k0) eqn:E.
  - apply String.eqb_eq in E. split; [discriminate|]. intros H; exfalso; apply H; auto.
  - apply String.eqb_neq in E. rewrite IH. split; [intros H [H'|H']; [congruence|tauto]|tauto].
Qed.

Lemma keys_set k v d :
  PyDict.keys (PyDict.set k v d) =
  match PyDict.get k d with
  | Some _ => PyDict.keys d
  | None => PyDict.keys d ++ [k]
  end.
Proof.
  induction d as [|[k0 v0] d IH]; simpl; [reflexivity|].
  destruct (String.eqb k k0); simpl; [reflexivity|].
  rewrite IH. destruct (PyDict.get k d); reflexivity.
Qed.

Lemma NoDup_keys_set k v d :
  NoDup (PyDict.keys d) -> NoDup (PyDict.keys (PyDict.set k v d)).
Proof.
  intros H. rewrite keys_set. destruct (PyDict.get k d) eqn:E; [exact H|].
  apply get_None_keys in E.
  apply NoDup_app; [exact H|repeat constructor; simpl; tauto|].
  intros x Hx [<-|[]]. exact (E Hx).
Qed.



Lemma setdefault_get k k' v d :
  PyDict.get k' (PyDict.setdefault k v d) =
  if String.eqb k' k
  then Some (match PyDict.get k d with Some x => x | None => v end)
  else PyDict.get k' d.
Proof.
  unfold PyDict.setdefault. destruct (PyDict.get k d) eqn:E.
  - destruct (String.eqb k' k) eqn:E'; [|reflexivity].
    apply String.eqb_eq in E'; subst. exact E.
  - rewrite get_set. destruct (String.eqb k' k) eqn:E'; reflexivity.
Qed.


End DictFacts.

Lemma str_in_In (x : string) (xs : list string) : str_in x xs = true <-> In x xs.
Proof.
  unfold str_in. rewrite existsb_exists. split.
  - intros (y & Hy & E). apply String.eqb_eq in E. now subst.
  - intros H. exists x. split; [exact H|apply String.eqb_refl].
Qed.

(** *** [write_score] *)

Lemma write_score_overwrite (h1 h2 : Heuristic) (l : StoredListing.t) :
  write_score h2 (write_score h1 l) = write_score h2 l.
Proof. reflexivity. Qed.

Lemma write_score_vin (h : Heuristic) (l : StoredListing.t) :
  StoredListing.vin (write_score h l) = StoredListing.vin l.
Proof. reflexivity. Qed.

(** *** [persist] *)

Lemma persist_fold_get (h : Heuristic) (ids : list string)
  (by_id : PyDict.dict StoredListing.t) (lid : string) :
  PyDict.get lid (fold_left (persist_step h) ids by_id) =
  option_map (fun l => if str_in lid ids then write_score h l else l)
    (PyDict.get lid by_id).
Proof.
  revert by_id. induction ids as [|i ids IH]; intro by_id; simpl.
  - destruct (PyDict.get lid by_id); reflexivity.
  - rewrite IH. unfold persist_step.
    destruct (String.eqb lid i) eqn:E.
    + apply String.eqb_eq in E; subst i.
      destruct (PyDict.get lid by_id) as [l|] eqn:G.
      * rewrite get_set_same. simpl. destruct (str_in lid ids); reflexivity.
      * rewrite G. reflexivity.
    + destruct (PyDict.get i by_id) as [s|]; [|reflexivity].
      rewrite get_set, E. reflexivity.
Qed.

Lemma persist_fold_keys (h : Heuristic) (ids : list string)
  (by_id : PyDict.dict StoredListing.t) :
  PyDict.keys (fold_left (persist_step h) ids by_id) = PyDict.keys by_id.
Proof.
  revert by_id. induction ids as [|i ids IH]; intro by_id; simpl; [reflexivity|].
  rewrite IH. unfold persist_step.
  destruct (PyDict.get i by_id) eqn:G; [|reflexivity].
  rewrite keys_set, G. reflexivity.
Qed.


(** *** [normalize] and [ingest] *)

Lemma normalize_id (item : StoredListing.t) :
  StoredListing.id (normalize item) = StoredListing.id item.
Proof. normalize_cases item; reflexivity. Qed.

Lemma normalize_vin (item : StoredListing.t) :
  StoredListing.vin (normalize item) = vin_key (StoredListing.vin item).
Proof. normalize_cases item; reflexivity. Qed.


Lemma ingest_item_by_id (item : StoredListing.t) (st : Store) :
  _by_id (fst (ingest_item item st)) =
  PyDict.set (StoredListing.id item) (normalize item) (_by_id st).
Proof. unfold ingest_item. cbn [fst _by_id]. rewrite normalize_id. reflexivity. Qed.

Lemma ingest_item_index (item : StoredListing.t) (st : Store) (key : string) :
  let v := vin_key (StoredListing.vin item) in
  let lid := StoredListing.id item in
  PyDict.get key (_ids_by_vin (fst (ingest_item item st))) =
  if String.eqb key v
  then Some (ids_of v st ++ (if str_in lid (ids_of v st) then [] else [lid]))
  else PyDict.get key (_ids_by_vin st).
Proof.
  cbv zeta. unfold ingest_item. cbn [fst _ids_by_vin].
  rewrite normalize_id, normalize_vin.
  rewrite setdefault_get, String.eqb_refl. fold (ids_of (vin_key (StoredListing.vin item)) st).
  destruct (str_in _ _).
  - rewrite setdefault_get, app_nil_r. reflexivity.
  - rewrite get_set, setdefault_get.
    destruct (String.eqb key _); reflexivity.
Qed.

Lemma ingest_item_out (item : StoredListing.t) (st : Store) :
  snd (ingest_item item st) = normalize item.
Proof. reflexivity. Qed.

(** *** [persist] and [score_item] *)

Lemma persist_by_id_get (h : Heuristic) (key : string) (st : Store) (lid : string) :
  PyDict.get lid (_by_id (persist h key st)) =
  option_map (fun l => if str_in lid (ids_of key st) then write_score h l else l)
    (PyDict.get lid (_by_id st)).
Proof. apply persist_fold_get. Qed.

Lemma persist_absent (h : Heuristic) (key : string) (st : Store) :
  PyDict.get key (_ids_by_vin st) = None -> persist h key st = st.
Proof.
  intros H. unfold persist, ids_of. rewrite H. destruct st; reflexivity.
Qed.

Lemma score_item_store (item : Listing.t) (st : Store) :
  fst (score_item item st) =
  match heuristic item with
  | inr h => persist h (vin_key (Listing.vin item)) st
  | inl _ => st
  end.
Proof. unfold score_item. destruct (heuristic item); reflexivity. Qed.

(** *** Properties kept along a run *)

Section Preservation.
Variable Q : StoredListing.t -> Prop.
Variable P : Store -> Prop.
Hypothesis ingest_step :
  forall item st, Q item -> P st -> P (fst (ingest_item item st)).
Hypothesis persist_step_keeps :
  forall h key st, P st -> P (persist h key st).

Lemma ingest_keeps (ls : list StoredListing.t) (st : Store) :
  Forall Q ls -> P st -> P (fst (ingest ls st)).
Proof.
  revert st. induction ls as [|item ls IH]; intros st HQ HP; [exact HP|].
  inversion HQ as [|? ? Hq Hqs]; subst. cbn [ingest].
  pose proof (ingest_step item st Hq HP) as H1.
  destruct (ingest_item item st) as [st1 norm]. cbn [fst] in H1.
  specialize (IH st1 Hqs H1).
  destruct (ingest ls st1) as [st2 out]. exact IH.
Qed.

Lemma score_item_keeps (item : Listing.t) (st : Store) :
  P st -> P (fst (score_item item st)).
Proof.
  intros HP. rewrite score_item_store.
  destruct (heuristic item); [exact HP|apply persist_step_keeps, HP].
Qed.

Lemma score_keeps (ls : list Listing.t) (st : Store) :
  P st -> P (fst (score ls st)).
Proof.
  revert st. induction ls as [|item ls IH]; intros st HP; [exact HP|].
  cbn [score]. pose proof (score_item_keeps item st HP) as H1.
  destruct (score_item item st) as [st1 [e|r]]; cbn [fst] in *; [exact H1|].
  specialize (IH st1 H1).
  destruct (score ls st1) as [st2 [e|out]]; exact IH.
Qed.

Lemma run_keeps (rqs : list request) (st : Store) :
  ingests Q rqs -> P st -> P (run rqs st).
Proof.
  unfold run, ingests. revert st.
  induction rqs as [|rq rqs IH]; intros st HQ HP; [exact HP|].
  inversion HQ as [|? ? Hq Hqs]; subst. cbn [fold_left]. apply IH; [exact Hqs|].
  destruct rq as [ls|ls|]; cbn [handle].
  - apply ingest_keeps; assumption.
  - apply score_keeps; assumption.
  - exact HP.
Qed.

End Preservation.

Lemma ingests_any (rqs : list request) : ingests (fun _ => True) rqs.
Proof.
  induction rqs as [|[ls|ls|] rqs IH]; constructor; auto.
  induction ls; constructor; auto.
Qed.

(** [store_ok] holds of every store the service reaches. *)
Lemma store_ok_empty : store_ok empty_store.
Proof. split; [constructor|]. intros lid l H. discriminate H. Qed.

Lemma store_ok_ingest_item (item : StoredListing.t) (st : Store) :
  store_ok st -> store_ok (fst (ingest_item item st)).
Proof.
  intros [Hnd Hidx]. split.
  - rewrite ingest_item_by_id. apply NoDup_keys_set, Hnd.
  - intros lid l. rewrite ingest_item_by_id, get_set.
    pose proof (ingest_item_index item st) as Hi. cbv zeta in Hi.
    destruct (String.eqb lid (StoredListing.id item)) eqn:E.
    + apply String.eqb_eq in E; subst lid. intros H; injection H as <-.
      rewrite normalize_vin, Hi, String.eqb_refl. eexists; split; [reflexivity|].
      apply in_or_app. destruct (str_in _ _) eqn:Hin; [left|right; left; reflexivity].
      apply str_in_In, Hin.
    + intros H. destruct (Hidx lid l H) as (ids & Hg & Hin). rewrite Hi.
      destruct (String.eqb (StoredListing.vin l) _) eqn:E'; [|eauto].
      apply String.eqb_eq in E'. eexists; split; [reflexivity|].
      apply in_or_app; left. unfold ids_of. rewrite <- E', Hg. exact Hin.
Qed.

Lemma store_ok_persist (h : Heuristic) (key : string) (st : Store) :
  store_ok st -> store_ok (persist h key st).
Proof.
  intros [Hnd Hidx]. split.
  - unfold persist. cbn [_by_id]. rewrite persist_fold_keys. exact Hnd.
  - intros lid l. rewrite persist_by_id_get.
    destruct (PyDict.get lid (_by_id st)) as [l0|] eqn:G; [|discriminate].
    cbn [option_map]. intros H; injection H as <-.
    destruct (Hidx lid l0 G) as (ids & Hg & Hin). exists ids.
    destruct (str_in lid _); rewrite ?write_score_vin; auto.
Qed.

Lemma store_ok_run (rqs : list request) : store_ok (run rqs empty_store).
Proof.
  apply (run_keeps (fun _ => True) store_ok).
  - intros item st _. apply store_ok_ingest_item.
  - apply store_ok_persist.
  - apply ingests_any.
  - apply store_ok_empty.
Qed.

(** An id stays stored and indexed under its key. *)
Lemma tracked_ingest_item (lid key : string) (item : StoredListing.t) (st : Store) :
  tracked lid key st -> tracked lid key (fst (ingest_item item st)).
Proof.
  intros [[l Hl] (ids & Hg & Hin)]. split.
  - rewrite ingest_item_by_id, get_set. destruct (String.eqb _ _); eauto.
  - pose proof (ingest_item_index item st key) as Hi. cbv zeta in Hi. rewrite Hi.
    destruct (String.eqb _ _) eqn:E; [|eauto].
    apply String.eqb_eq in E. eexists; split; [reflexivity|].
    apply in_or_app; left. unfold ids_of. rewrite <- E, Hg. exact Hin.
Qed.

Lemma tracked_persist (lid key : string) (h : Heuristic) (k : string) (st : Store) :
  tracked lid key st -> tracked lid key (persist h k st).
Proof.
  intros [[l Hl] Hidx]. split; [|exact Hidx].
  rewrite persist_by_id_get, Hl. cbn [option_map]. eauto.
Qed.

Lemma tracked_after_ingest (item : StoredListing.t) (st : Store) :
  tracked (StoredListing.id item) (vin_key (StoredListing.vin item))
    (fst (ingest_item item st)).
Proof.
  split.
  - rewrite ingest_item_by_id, get_set_same. eauto.
  - pose proof (ingest_item_index item st (vin_key (StoredListing.vin item))) as Hi.
    cbv zeta in Hi. rewrite Hi, String.eqb_refl. eexists; split; [reflexivity|].
    apply in_or_app. destruct (str_in _ _) eqn:Hin; [left|right; left; reflexivity].
    apply str_in_In, Hin.
Qed.

Lemma tracked_run (lid key : string) (rqs : list request) (st : Store) :
  tracked lid key st -> tracked lid key (run rqs st).
Proof.
  intros H. apply (run_keeps (fun _ => True) (tracked lid key)); auto.
  - intros item s _. apply tracked_ingest_item.
  - intros h k s. apply tracked_persist.
  - apply ingests_any.
Qed.

(** A VIN key that is never ingested is never indexed. *)
Lemma never_ingested_absent (key : string) (rqs : list request) :
  never_ingested key rqs ->
  PyDict.get key (_ids_by_vin (run rqs empty_store)) = None.
Proof.
  intros H.
  apply (run_keeps (fun l => vin_key (StoredListing.vin l) <> key)
           (fun st => PyDict.get key (_ids_by_vin st) = None)); auto.
  intros item st Hq Hst.
  pose proof (ingest_item_index item st key) as Hi. cbv zeta in Hi. rewrite Hi.
  destruct (String.eqb _ _) eqn:E; [|exact Hst].
  apply String.eqb_eq in E. congruence.
Qed.



(** *** Single-item requests *)

Lemma ingest_single (item : StoredListing.t) (st : Store) :
  ingest [item] st = (fst (ingest_item item st), [snd (ingest_item item st)]).
Proof. cbn [ingest]. destruct (ingest_item item st); reflexivity. Qed.

Lemma score_single (item : Listing.t) (st : Store) :
  score [item] st =
  (fst (score_item item st),
   match snd (score_item item st) with
   | inl e => inl e
   | inr r => inr [r]
   end).
Proof. cbn [score]. destruct (score_item item st) as [st1 [e|r]]; reflexivity. Qed.

(** *** The response of a scoring turn *)

Lemma heuristic_score_bounds (item : Listing.t) (h : Heuristic) :
  heuristic item = inr h ->
  exists b,
    spec_base item = inr b /\
    int_of_float
      (spec_clamp (fadd b (spec_priceBoost (Listing.price item)))
         (float_of_int 0) (float_of_int 100)) = inr (score_val h) /\
    0 <= score_val h <= 100.
Proof.
  intros H. destruct (heuristic_inv item h H) as (b & Hb & Hk & Hs & _).
  exists b. split; [exact Hb|].
  destruct (clamp_score (fadd b (spec_priceBoost (Listing.price item)))) as (z & Hz & Hc & Hr).
  { apply fadd_mant_ok; [exact Hk|apply spec_priceBoost_mant_ok]. }
  rewrite Hs in Hz. injection Hz as <-. split; assumption.
Qed.

Lemma score_item_response (item : Listing.t) (st : Store) (r : ScoreResponse.t) :
  snd (score_item item st) = inr r ->
  exists h,
    heuristic item = inr h /\
    r = ScoreResponse.mk (Listing.vin item) (score_val h) (round2 (buy_max h))
          (reasons_or_default (reasons h)).
Proof.
  unfold score_item. destruct (heuristic item) as [e|h]; cbn [snd]; [discriminate|].
  unfold ScoreResponse.validate. destruct (_ && _); [|discriminate].
  intros H; injection H as <-. exists h. split; reflexivity.
Qed.

Lemma score_item_defined (item : Listing.t) (st : Store) :
  in_float_range item ->
  exists h,
    heuristic item = inr h /\
    score_item item st =
    (persist h (vin_key (Listing.vin item)) st,
     inr (ScoreResponse.mk (Listing.vin item) (score_val h) (round2 (buy_max h))
            (reasons_or_default (reasons h)))).
Proof.
  intros Hr. destruct (heuristic_defined item Hr) as (h & Hh).
  exists h. split; [exact Hh|]. unfold score_item. rewrite Hh.
  destruct (heuristic_score_bounds item h Hh) as (b & _ & _ & Hlo & Hhi).
  unfold ScoreResponse.validate. cbn [ScoreResponse.score].
  apply Z.leb_le in Hlo, Hhi. rewrite Hlo, Hhi. reflexivity.
Qed.

Lemma reasons_or_default_nonempty (rs : list string) : reasons_or_default rs <> [].
Proof. destruct rs; discriminate. Qed.

Lemma nonneg_in_float_range (item : Listing.t) :
  0 <= Listing.dom item -> 0 <= Listing.miles item -> in_float_range item.
Proof.
  intros Hd Hm. assert (H : - 2 ^ 1000 <= 0) by (apply Z.leb_le; reflexivity).
  split; eapply Z.le_trans; eassumption.
Qed.

(** *** What a scoring pass writes, field by field *)

Lemma write_score_fields (h : Heuristic) (stored : StoredListing.t) :
  StoredListing.score (write_score h stored) = Some (score_val h) /\
  StoredListing.buyMax (write_score h stored) = Some (round2 (buy_max h)) /\
  StoredListing.reasonCodes (write_score h stored) =
    reasons_or_default (reasons h) /\
  same_posted_fields stored (write_score h stored).
Proof. repeat split. Qed.

Lemma persist_writes (h : Heuristic) (key : string) (st : Store)
  (lid : string) (stored : StoredListing.t) :
  In lid (ids_of key st) ->
  PyDict.get lid (_by_id st) = Some stored ->
  exists stored',
    PyDict.get lid (_by_id (persist h key st)) = Some stored' /\
    StoredListing.score stored' = Some (score_val h) /\
    StoredListing.buyMax stored' = Some (round2 (buy_max h)) /\
    StoredListing.reasonCodes stored' = reasons_or_default (reasons h) /\
    same_posted_fields stored stored'.
Proof.
  intros Hin Hs. exists (write_score h stored). split.
  - rewrite persist_by_id_get, Hs. cbn [option_map].
    apply str_in_In in Hin. rewrite Hin. reflexivity.
  - apply write_score_fields.
Qed.

(** *** [score_on] *)

(** With [_db_enabled] off, [score_on] is [score] on the in-memory store
    and the database is not touched. *)
Lemma score_item_on_memory (item : Listing.t) (db : Db) (st : Store) :
  score_item_on item (mkProcess false db st) =
  (mkProcess false db (fst (score_item item st)),
   match snd (score_item item st) with
   | inl e => inl (Raised e)
   | inr r => inr r
   end).
Proof.
  unfold score_item_on, score_item. cbn [_db_enabled database memory].
  destruct (heuristic item) as [e|h]; reflexivity.
Qed.

Lemma score_on_memory (ls : list Listing.t) (db : Db) (st : Store) :
  score_on ls (mkProcess false db st) =
  (mkProcess false db (fst (score ls st)),
   match snd (score ls st) with
   | inl e => inl (Raised e)
   | inr out => inr out
   end).
Proof.
  revert st. induction ls as [|item rest IH]; intros st; [reflexivity|].
  cbn [score_on score]. rewrite score_item_on_memory.
  destruct (score_item item st) as [st1 [e|r]]; cbn [fst snd]; [reflexivity|].
  rewrite IH. destruct (score rest st1) as [st2 [e|out]]; reflexivity.
Qed.

Lemma score_item_on_database (item : Listing.t) (p : Process) :
  _db_enabled p = true ->
  in_float_range item ->
  exists h,
    heuristic item = inr h /\
    score_item_on item p =
    match
      (if str_in (vin_key (Listing.vin item)) (vehicles (database p))
       then inr (mkDb (vehicles (database p))
                   (scores (database p) ++
                    [ScoreRow.mk (vin_key (Listing.vin item)) (score_val h)
                       (round2 (buy_max h)) (reasons_or_default (reasons h))]))
       else inl ForeignKeyViolation)
    with
    | inl e => (p, inl e)
    | inr db =>
        (mkProcess true db (persist h (vin_key (Listing.vin item)) (memory p)),
         inr (ScoreResponse.mk (Listing.vin item) (score_val h)
                (round2 (buy_max h)) (reasons_or_default (reasons h))))
    end.
Proof.
  intros Hdb Hr. destruct (heuristic_defined item Hr) as (h & Hh).
  exists h. split; [exact Hh|]. unfold score_item_on. rewrite Hh, Hdb.
  destruct (heuristic_score_bounds item h Hh) as (b & _ & _ & Hlo & Hhi).
  apply Z.leb_le in Hlo, Hhi.
  unfold insert_score, ScoreResponse.validate.
  cbn [ScoreRow.score ScoreRow.vin ScoreResponse.score].
  rewrite Hlo, Hhi. cbn [andb negb].
  destruct (str_in _ _); reflexivity.
Qed.

(** * The claims *)

(** ** C1: the score *)

(** C1 (as stated, refuted). The claim has the score be the clamped sum
    rounded to the nearest integer. On the specification's own example
    (price 20000, miles 30000, dom 10) the clamped sum is 59.66..., whose
    nearest integer is 60, and the score returned is 59. *)
Lemma score_not_rounded_to_nearest :
  exists h b,
    heuristic (example_fact "X1" None) = inr h /\
    spec_base (example_fact "X1" None) = inr b /\
    score_val h = 59 /\
    nearest_int
      (spec_clamp (fadd b (spec_priceBoost (float_of_int 20000)))
         (float_of_int 0) (float_of_int 100)) 60 /\
    ~ nearest_int
        (spec_clamp (fadd b (spec_priceBoost (float_of_int 20000)))
           (float_of_int 0) (float_of_int 100)) (score_val h).
Proof.
  eexists. eexists.
  split; [vm_compute; reflexivity|].
  split; [vm_compute; reflexivity|].
  split; [reflexivity|].
  split.
  - vm_compute. discriminate.
  - vm_compute. intros H. apply H. reflexivity.
Qed.

(** C1 (amended). For every scored listing fact the returned score is the
    clamp of base + priceBoost into [0,100] truncated toward zero (Python's
    [int]), with base and priceBoost as the specification defines them, and
    0 <= score <= 100. A response is returned for every fact within the
    range of a float, in particular for non-negative miles and dom. *)
Theorem score_is_truncated_clamp (item : Listing.t) (st : Store) :
  (forall r, snd (score_item item st) = inr r ->
     exists b,
       spec_base item = inr b /\
       int_of_float
         (spec_clamp (fadd b (spec_priceBoost (Listing.price item)))
            (float_of_int 0) (float_of_int 100)) = inr (ScoreResponse.score r) /\
       0 <= ScoreResponse.score r <= 100) /\
  (in_float_range item -> exists r, snd (score_item item st) = inr r).
Proof.
  split.
  - intros r Hr. destruct (score_item_response item st r Hr) as (h & Hh & ->).
    cbn [ScoreResponse.score]. apply heuristic_score_bounds, Hh.
  - intros Hr. destruct (score_item_defined item st Hr) as (h & _ & ->).
    eexists. reflexivity.
Qed.

(** ** C2: the worked example *)


(** ** C3: ingest, then score *)

(** C3. A listing is ingested under some VIN; after any further requests,
    a score call whose VIN differs from it only in letter case and
    surrounding whitespace (both VINs ASCII) returns a response and finds
    the listing stored under that id: afterwards the score, the buyMax and
    the reason codes of the stored listing are those of the response, and
    its other fields are as they were. *)
Theorem ingest_then_score_links_by_vin
  (st : Store) (raw : StoredListing.t) (rqs : list request) (item : Listing.t) :
  PyStr.isascii (StoredListing.vin raw) = true ->
  PyStr.isascii (Listing.vin item) = true ->
  vin_variant (StoredListing.vin raw) (Listing.vin item) ->
  in_float_range item ->
  exists stored stored' r,
    PyDict.get (StoredListing.id raw)
      (_by_id (run rqs (fst (ingest [raw] st)))) = Some stored /\
    (rqs = [] -> stored = normalize raw) /\
    snd (score [item] (run rqs (fst (ingest [raw] st)))) = inr [r] /\
    PyDict.get (StoredListing.id raw)
      (_by_id (fst (score [item] (run rqs (fst (ingest [raw] st)))))) =
      Some stored' /\
    StoredListing.score stored' = Some (ScoreResponse.score r) /\
    StoredListing.buyMax stored' = Some (ScoreResponse.buyMax r) /\
    StoredListing.reasonCodes stored' = ScoreResponse.reasonCodes r /\
    same_posted_fields stored stored'.
Proof.
  intros _ _ Hv Hr. apply vin_variant_key in Hv.
  rewrite ingest_single. cbn [fst].
  pose proof (tracked_run _ _ rqs _ (tracked_after_ingest raw st))
    as [[stored Hs] (ids & Hg & Hin)].
  destruct (score_item_defined item (run rqs (fst (ingest_item raw st))) Hr)
    as (h & Hh & Hsc).
  destruct (persist_writes h (vin_key (Listing.vin item))
              (run rqs (fst (ingest_item raw st))) (StoredListing.id raw) stored)
    as (stored' & Hg' & Hf); [|exact Hs|].
  { unfold ids_of. rewrite <- Hv, Hg. exact Hin. }
  exists stored, stored'. eexists.
  split; [exact Hs|]. split.
  - intros ->. cbn [run fold_left] in Hs.
    rewrite ingest_item_by_id, get_set_same in Hs. now injection Hs as <-.
  - rewrite score_single, Hsc. cbn [fst snd].
    split; [reflexivity|]. split; [exact Hg'|]. exact Hf.
Qed.

Lemma ingest_then_score_links_by_vin_witness :
  exists stored stored' r,
    PyDict.get "a"
      (_by_id (run [ListListings]
                 (fst (ingest [example_raw "a" "X1" None 1] empty_store)))) =
      Some stored /\
    ([ListListings] = [] -> stored = normalize (example_raw "a" "X1" None 1)) /\
    snd (score [example_fact " x1 " None]
           (run [ListListings]
              (fst (ingest [example_raw "a" "X1" None 1] empty_store)))) =
      inr [r] /\
    PyDict.get "a"
      (_by_id (fst (score [example_fact " x1 " None]
                      (run [ListListings]
                         (fst (ingest [example_raw "a" "X1" None 1]
                                 empty_store)))))) =
      Some stored' /\
    StoredListing.score stored' = Some (ScoreResponse.score r) /\
    StoredListing.buyMax stored' = Some (ScoreResponse.buyMax r) /\
    StoredListing.reasonCodes stored' = ScoreResponse.reasonCodes r /\
    same_posted_fields stored stored'.
Proof.
  apply (ingest_then_score_links_by_vin empty_store
           (example_raw "a" "X1" None 1) [ListListings] (example_fact " x1 " None)).
  - reflexivity.
  - reflexivity.
  - exists "", "", " ", " ", "X1", "x1". repeat split; reflexivity.
  - split; apply Z.leb_le; reflexivity.
Defined.

(** ** C4: the radius *)

(** C4 (as stated, refuted). A listing posted with radius -5 is stored
    with radius -5, which is not positive. *)
Lemma negative_radius_stays_negative :
  StoredListing.radius
    (snd (ingest_item (example_raw "a" "X1" (Some (-5)) 1) empty_store)) =
  Some (-5) /\
  PyDict.get "a"
    (_by_id (fst (ingest_item (example_raw "a" "X1" (Some (-5)) 1) empty_store))) =
  Some (snd (ingest_item (example_raw "a" "X1" (Some (-5)) 1) empty_store)) /\
  ~ radius_positive
      (snd (ingest_item (example_raw "a" "X1" (Some (-5)) 1) empty_store)).
Proof.
  split; [reflexivity|]. split; [reflexivity|].
  intros (r & Hr & Hpos). cbn in Hr. injection Hr as <-. lia.
Qed.

(** C4 (amended). The stored radius is 25 when the posted radius is absent
    or zero, and the posted radius otherwise; so it is never absent and
    never zero, and it is positive whenever the posted radius is absent or
    not negative. *)
Theorem normalized_radius (raw : StoredListing.t) (st : Store) :
  PyDict.get (StoredListing.id raw) (_by_id (fst (ingest_item raw st))) =
    Some (normalize raw) /\
  snd (ingest_item raw st) = normalize raw /\
  (StoredListing.radius raw = None \/ StoredListing.radius raw = Some 0 ->
   StoredListing.radius (normalize raw) = Some 25) /\
  (forall r, StoredListing.radius raw = Some r -> r <> 0 ->
   StoredListing.radius (normalize raw) = Some r) /\
  (forall r, StoredListing.radius (normalize raw) = Some r -> r <> 0) /\
  StoredListing.radius (normalize raw) <> None /\
  ((StoredListing.radius raw = None \/
    exists r, StoredListing.radius raw = Some r /\ 0 <= r) ->
   radius_positive (normalize raw)).
Proof.
  split; [rewrite ingest_item_by_id; apply get_set_same|].
  split; [reflexivity|].
  unfold radius_positive.
  normalize_cases raw; repeat split; try discriminate;
    try (intros [H|H]; try discriminate H; reflexivity);
    try (intros r H; injection H as <-; intros; first [reflexivity|lia|discriminate]);
    try (intros [H|(r & H & Hr)]; try discriminate H;
         try (injection H as <-); eexists; split; try reflexivity; lia).
Qed.

(** ** C5: the order of the list *)

(** C5 (the in-memory store does otherwise). Two listings are ingested one
    after the other, the second created later; the list operation returns
    them in the order of insertion, the oldest first, and that list is not
    newest-created-first. *)
Theorem memory_list_is_oldest_first :
  list_listings
    (run [Ingest [example_raw "a" "X1" None 100];
          Ingest [example_raw "b" "Y2" None 200]] empty_store) =
  [normalize (example_raw "a" "X1" None 100);
   normalize (example_raw "b" "Y2" None 200)] /\
  ~ newest_first
      (list_listings
         (run [Ingest [example_raw "a" "X1" None 100];
               Ingest [example_raw "b" "Y2" None 200]] empty_store)).
Proof.
  assert (E : list_listings
                (run [Ingest [example_raw "a" "X1" None 100];
                      Ingest [example_raw "b" "Y2" None 200]] empty_store) =
              [normalize (example_raw "a" "X1" None 100);
               normalize (example_raw "b" "Y2" None 200)])
    by (vm_compute; reflexivity).
  rewrite E. split; [reflexivity|].
  intros H. apply StronglySorted_inv in H as [_ H].
  apply Forall_inv in H. vm_compute in H. apply H. reflexivity.
Qed.

(** ** C6: buyMax *)


(** ** C7: scoring a VIN that was never ingested *)

(** C7 (the relational backend does otherwise). On a database that holds
    no vehicle, the score request for the worked example's facts under the
    VIN ZZ9 ends with the foreign-key violation of the insert into
    [scores]: no response is returned. The same request to the process
    without a database returns one response, with a score within 0 and 100
    and reason codes, and leaves the process as it was. *)
Theorem score_uningested_vin_fails_with_database :
  score_on [example_fact "ZZ9" None] fresh_database_process =
    (fresh_database_process, inl ForeignKeyViolation) /\
  exists r,
    score_on [example_fact "ZZ9" None] fresh_memory_process =
      (fresh_memory_process, inr [r]) /\
    0 <= ScoreResponse.score r <= 100 /\
    ScoreResponse.reasonCodes r <> [].
Proof.
  split; [vm_compute; reflexivity|].
  eexists. split; [vm_compute; reflexivity|].
  cbn. split; [lia|discriminate].
Qed.

(** ** C8: score, buyMax and reason codes go together *)




(** ** C9: normalisation is idempotent *)

(** C9. Normalising a listing twice gives what normalising it once gives. *)
Theorem normalize_idempotent (x : StoredListing.t) :
  normalize (normalize x) = normalize x.
Proof.
  destruct x as [i v y mk md [t|] mi p sc d so [[|r|r]|] rc bm ca];
    unfold normalize; cbn -[vin_key PyStr.strip];
    rewrite ?vin_key_idem, ?strip_idem; reflexivity.
Qed.

(** ** C10: re-scoring *)

Lemma run_app (rqs1 rqs2 : list request) (st : Store) :
  run (rqs1 ++ rqs2) st = run rqs2 (run rqs1 st).
Proof. apply fold_left_app. Qed.


(** *** Two runs that differ by one scoring call *)




Section Alike.
Variable ids : list string.
Implicit Types d : PyDict.dict StoredListing.t.





End Alike.










(** * Further properties of the code *)

(** ** [ingest] *)

(** X1. [ingest] answers with the normalised form of every posted listing,
    one per listing and in the order of the request, whatever the store. *)
Theorem ingest_returns_normalized (ls : list StoredListing.t) (st : Store) :
  snd (ingest ls st) = map normalize ls.
Proof.
  revert st. induction ls as [|item ls IH]; intro st; [reflexivity|].
  cbn [ingest map]. destruct (ingest_item item st) as [st1 norm] eqn:E.
  specialize (IH st1). destruct (ingest ls st1) as [st2 out]. cbn [snd] in *.
  rewrite IH. f_equal. change norm with (snd (st1, norm)). rewrite <- E. reflexivity.
Qed.

Lemma ingest_concat (ls1 ls2 : list StoredListing.t) (st : Store) :
  ingest (ls1 ++ ls2) st =
  (fst (ingest ls2 (fst (ingest ls1 st))),
   snd (ingest ls1 st) ++ snd (ingest ls2 (fst (ingest ls1 st)))).
Proof.
  revert st. induction ls1 as [|item ls1 IH]; intro st.
  - cbn [app ingest fst snd]. destruct (ingest ls2 st); reflexivity.
  - cbn [app ingest]. destruct (ingest_item item st) as [st1 norm].
    rewrite IH. destruct (ingest ls1 st1) as [st2 out]. reflexivity.
Qed.

(** X2. A batch is handled item by item: ingesting the concatenation of two
    batches is ingesting the first, then the second on the store the first
    leaves, and the responses are concatenated. *)
Theorem ingest_app (ls1 ls2 : list StoredListing.t) (st : Store) :
  ingest (ls1 ++ ls2) st =
  (fst (ingest ls2 (fst (ingest ls1 st))),
   snd (ingest ls1 st) ++ snd (ingest ls2 (fst (ingest ls1 st)))).
Proof.
  revert st. induction ls1 as [|item ls1 IH]; intro st.
  - cbn [app ingest fst snd]. destruct (ingest ls2 st); reflexivity.
  - cbn [app ingest]. destruct (ingest_item item st) as [st1 norm].
    rewrite IH. destruct (ingest ls1 st1) as [st2 out]. reflexivity.
Qed.

Lemma In_set {V : Type} (k k0 : string) (v v0 : V) (d : PyDict.dict V) :
  In (k, v) (PyDict.set k0 v0 d) -> (k, v) = (k0, v0) \/ In (k, v) d.
Proof.
  induction d as [|[k1 v1] d IH]; cbn [PyDict.set].
  - intros [H|[]]; left; now symmetry.
  - destruct (String.eqb k0 k1) eqn:E.
    + apply String.eqb_eq in E; subst k1. intros [H|H]; [left; now symmetry|].
      right; right; exact H.
    + intros [H|H]; [right; left; exact H|].
      destruct (IH H) as [H'|H']; [left; exact H'|right; right; exact H'].
Qed.

Lemma get_In {V : Type} (k : string) (v : V) (d : PyDict.dict V) :
  PyDict.get k d = Some v -> In (k, v) d.
Proof.
  induction d as [|[k1 v1] d IH]; cbn [PyDict.get]; [discriminate|].
  destruct (String.eqb k k1) eqn:E.
  - apply String.eqb_eq in E; subst k1. intros H; injection H as ->. now left.
  - intros H. right. exact (IH H).
Qed.

Lemma vin_key_canonical (s : string) :
  PyStr.strip (vin_key s) = vin_key s /\ PyStr.upper (vin_key s) = vin_key s.
Proof.
  unfold vin_key. split.
  - rewrite strip_upper, strip_idem. reflexivity.
  - apply upper_idem.
Qed.

Lemma normalize_canonical (item : StoredListing.t) : canonical (normalize item).
Proof.
  unfold canonical.
  destruct item as [i v y mk md [t|] mi p sc d so [[|r|r]|] rc bm ca];
    unfold normalize; cbn -[vin_key PyStr.strip PyStr.upper];
    repeat split; try apply strip_idem; try apply vin_key_canonical.
Qed.

Lemma entries_canonical_ingest_item (item : StoredListing.t) (st : Store) :
  entries_canonical st -> entries_canonical (fst (ingest_item item st)).
Proof.
  intros H k l. rewrite ingest_item_by_id. intros Hin.
  apply In_set in Hin as [Heq|Hin]; [|exact (H k l Hin)].
  injection Heq as -> ->. split; [apply normalize_id|apply normalize_canonical].
Qed.

Lemma entries_canonical_persist (h : Heuristic) (key : string) (st : Store) :
  entries_canonical st -> entries_canonical (persist h key st).
Proof.
  unfold entries_canonical, persist. cbn [_by_id].
  generalize (ids_of key st), (_by_id st). intros ids.
  induction ids as [|i ids IH]; intros d H; [exact H|].
  cbn [fold_left]. apply IH. unfold persist_step.
  destruct (PyDict.get i d) as [stored|] eqn:G; [|exact H].
  intros k l Hin. apply In_set in Hin as [Heq|Hin]; [|exact (H k l Hin)].
  injection Heq as -> ->. exact (H i stored (get_In _ _ _ G)).
Qed.

(** X3. Whatever was posted, every listing the list operation returns after
    any run of requests has its VIN trimmed and in upper case, its make and
    model trimmed, and a radius that is set and not zero; no two of them
    share an id. *)
Theorem listed_listings_are_canonical (rqs : list request) :
  Forall canonical (list_listings (run rqs empty_store)) /\
  NoDup (map StoredListing.id (list_listings (run rqs empty_store))).
Proof.
  assert (H : entries_canonical (run rqs empty_store)).
  { apply (run_keeps (fun _ => True) entries_canonical).
    - intros item st _. apply entries_canonical_ingest_item.
    - apply entries_canonical_persist.
    - apply ingests_any.
    - intros k l []. }
  destruct (store_ok_run rqs) as [Hnd _].
  unfold list_listings, PyDict.values, PyDict.keys in *.
  revert H Hnd. unfold entries_canonical.
  generalize (_by_id (run rqs empty_store)). intros d H Hnd. split.
  - apply Forall_forall. intros l Hin. apply in_map_iff in Hin as ([k l'] & <- & Hin).
    exact (proj2 (H k l' Hin)).
  - rewrite map_map. erewrite map_ext_in; [exact Hnd|].
    intros [k l] Hin. exact (proj1 (H k l Hin)).
Qed.

Lemma index_nodup_ingest_item (item : StoredListing.t) (st : Store) :
  index_nodup st -> index_nodup (fst (ingest_item item st)).
Proof.
  intros H key ids. pose proof (ingest_item_index item st key) as Hi.
  cbv zeta in Hi. rewrite Hi.
  destruct (String.eqb _ _) eqn:E; [|apply H].
  intros Hs; injection Hs as <-.
  assert (Hold : NoDup (ids_of (vin_key (StoredListing.vin item)) st)).
  { unfold ids_of.
    destruct (PyDict.get (vin_key (StoredListing.vin item)) (_ids_by_vin st)) eqn:G;
      [exact (H _ _ G)|constructor]. }
  destruct (str_in _ _) eqn:Hin; [rewrite app_nil_r; exact Hold|].
  apply NoDup_app; [exact Hold|repeat constructor; simpl; tauto|].
  intros x Hx [<-|[]]. apply str_in_In in Hx. congruence.
Qed.

(** X4. However often the same listing is posted, the index from a VIN to
    its listing ids never holds an id twice, after any run of requests. *)
Theorem index_never_repeats_an_id (rqs : list request) (key : string) :
  NoDup (ids_of key (run rqs empty_store)).
Proof.
  assert (H : index_nodup (run rqs empty_store)).
  { apply (run_keeps (fun _ => True) index_nodup).
    - intros item st _. apply index_nodup_ingest_item.
    - intros h k st Hst. exact Hst.
    - apply ingests_any.
    - intros k ids Hg. discriminate Hg. }
  unfold ids_of. destruct (PyDict.get _ _) eqn:G; [exact (H _ _ G)|constructor].
Qed.

(** X5. Listings are never removed and keep their place: the ids stored
    before a run of requests are, in the same order, the first ids stored
    after it. *)
Theorem stored_ids_are_kept (rqs : list request) (st : Store) :
  exists more,
    PyDict.keys (_by_id (run rqs st)) = PyDict.keys (_by_id st) ++ more.
Proof.
  apply (run_keeps (fun _ => True)
           (fun s => exists more,
              PyDict.keys (_by_id s) = PyDict.keys (_by_id st) ++ more)).
  - intros item s _ (more & Hm). rewrite ingest_item_by_id, keys_set, Hm.
    destruct (PyDict.get _ _).
    + exists more. reflexivity.
    + eexists. rewrite <- app_assoc. reflexivity.
  - intros h k s (more & Hm). exists more. unfold persist. cbn [_by_id].
    rewrite persist_fold_keys. exact Hm.
  - apply ingests_any.
  - exists []. now rewrite app_nil_r.
Qed.

(** X6. Posting a listing under an id that is already stored replaces the
    stored listing by the normalised posting, score fields included, in
    the same place: no listing is added and the other listings are as they
    were. *)
Theorem reingest_replaces_in_place
  (item : StoredListing.t) (st : Store) (old : StoredListing.t) :
  PyDict.get (StoredListing.id item) (_by_id st) = Some old ->
  PyDict.keys (_by_id (fst (ingest_item item st))) = PyDict.keys (_by_id st) /\
  PyDict.get (StoredListing.id item) (_by_id (fst (ingest_item item st))) =
    Some (normalize item) /\
  (forall lid, lid <> StoredListing.id item ->
     PyDict.get lid (_by_id (fst (ingest_item item st))) =
     PyDict.get lid (_by_id st)).
Proof.
  intros Hold. rewrite ingest_item_by_id. repeat split.
  - rewrite keys_set, Hold. reflexivity.
  - apply get_set_same.
  - intros lid Hne. rewrite get_set.
    apply String.eqb_neq in Hne. rewrite Hne. reflexivity.
Qed.

Lemma reingest_replaces_in_place_witness :
  PyDict.keys
    (_by_id (fst (ingest_item (example_raw "a" "Y2" (Some 10) 2)
                    (fst (ingest_item (example_raw "a" "X1" None 1) empty_store))))) =
  PyDict.keys (_by_id (fst (ingest_item (example_raw "a" "X1" None 1) empty_store))) /\
  PyDict.get "a"
    (_by_id (fst (ingest_item (example_raw "a" "Y2" (Some 10) 2)
                    (fst (ingest_item (example_raw "a" "X1" None 1) empty_store))))) =
    Some (normalize (example_raw "a" "Y2" (Some 10) 2)) /\
  (forall lid, lid <> "a" ->
     PyDict.get lid
       (_by_id (fst (ingest_item (example_raw "a" "Y2" (Some 10) 2)
                       (fst (ingest_item (example_raw "a" "X1" None 1)
                               empty_store))))) =
     PyDict.get lid
       (_by_id (fst (ingest_item (example_raw "a" "X1" None 1) empty_store)))).
Proof.
  apply (reingest_replaces_in_place (example_raw "a" "Y2" (Some 10) 2)
           (fst (ingest_item (example_raw "a" "X1" None 1) empty_store))
           (normalize (example_raw "a" "X1" None 1))).
  reflexivity.
Defined.

(** ** [score] *)

Lemma erase_scores_persist_step (h : Heuristic) (d : PyDict.dict StoredListing.t)
  (lid : string) :
  map (fun kv => (fst kv, erase_scores (snd kv))) (persist_step h d lid) =
  map (fun kv => (fst kv, erase_scores (snd kv))) d.
Proof.
  unfold persist_step.
  induction d as [|[k v] d IH]; cbn [PyDict.get]; [reflexivity|].
  destruct (String.eqb lid k) eqn:E; cbn [PyDict.set]; rewrite E; [reflexivity|].
  destruct (PyDict.get lid d) as [stored|]; [|reflexivity].
  cbn [map]. f_equal. exact IH.
Qed.

Lemma erase_scores_persist (h : Heuristic) (key : string) (st : Store) :
  _ids_by_vin (persist h key st) = _ids_by_vin st /\
  map (fun kv => (fst kv, erase_scores (snd kv))) (_by_id (persist h key st)) =
  map (fun kv => (fst kv, erase_scores (snd kv))) (_by_id st).
Proof.
  split; [reflexivity|]. unfold persist. cbn [_by_id].
  generalize (ids_of key st), (_by_id st). intros ids.
  induction ids as [|i ids IH]; intro d; [reflexivity|].
  cbn [fold_left]. rewrite IH. apply erase_scores_persist_step.
Qed.

(** X7. A score request never adds, removes, moves or re-indexes a
    listing and never changes a field other than score, buyMax and reason
    codes: with these three blanked, the entries of the store and its index
    are what they were, on any store and whether or not the request
    raises. *)
Theorem score_changes_score_fields_only (ls : list Listing.t) (st : Store) :
  _ids_by_vin (fst (score ls st)) = _ids_by_vin st /\
  map (fun kv => (fst kv, erase_scores (snd kv))) (_by_id (fst (score ls st))) =
  map (fun kv => (fst kv, erase_scores (snd kv))) (_by_id st).
Proof.
  apply (score_keeps
           (fun s =>
              _ids_by_vin s = _ids_by_vin st /\
              map (fun kv => (fst kv, erase_scores (snd kv))) (_by_id s) =
              map (fun kv => (fst kv, erase_scores (snd kv))) (_by_id st))).
  - intros h key s [Hi Hm]. destruct (erase_scores_persist h key s) as [Hi' Hm'].
    split; congruence.
  - split; reflexivity.
Qed.

Lemma score_defined (ls : list Listing.t) (st : Store) :
  Forall in_float_range ls -> exists out, snd (score ls st) = inr out.
Proof.
  revert st. induction ls as [|item ls IH]; intros st H; [eexists; reflexivity|].
  inversion H as [|? ? Hi Hl]; subst. cbn [score].
  destruct (score_item_defined item st Hi) as (h & _ & ->).
  destruct (IH (persist h (vin_key (Listing.vin item)) st) Hl) as (out & Ho).
  destruct (score ls _) as [st2 [e|out']]; cbn [snd] in *; [discriminate|].
  eexists. reflexivity.
Qed.




(** X9. The reason codes of a response are never empty and never repeat a
    code; they are exactly the sentinel Heuristic if and only if no
    threshold fires (price not below 25000, dom from 20 to 45, miles at
    least 50000); LowDOM and AgedInventory never come together. *)
Theorem reason_codes_shape (item : Listing.t) (st : Store) :
  (forall r, snd (score_item item st) = inr r ->
     ScoreResponse.reasonCodes r <> [] /\
     NoDup (ScoreResponse.reasonCodes r) /\
     (ScoreResponse.reasonCodes r = ["Heuristic"] <-> no_threshold item) /\
     ~ (In "LowDOM" (ScoreResponse.reasonCodes r) /\
        In "AgedInventory" (ScoreResponse.reasonCodes r))) /\
  (in_float_range item -> exists r, snd (score_item item st) = inr r).
Proof.
  split;
    [|intros Hr; destruct (score_item_defined item st Hr) as (h & _ & ->);
      eexists; reflexivity].
  intros r Hr. destruct (score_item_response item st r Hr) as (h & Hh & ->).
  destruct (heuristic_inv item h Hh) as (_ & _ & _ & _ & _ & Hrs).
  cbn [ScoreResponse.reasonCodes]. rewrite Hrs. unfold spec_reasons, no_threshold.
  destruct (fltb (Listing.price item) (float_of_int 25000));
    destruct (Z.ltb_spec (Listing.dom item) 20);
    destruct (Z.ltb_spec (Listing.miles item) 50000);
    destruct (Z.ltb_spec 45 (Listing.dom item));
    cbn [app reasons_or_default];
    (split; [discriminate|]);
    (split; [repeat constructor; cbn [In]; intuition discriminate|]);
    (split; [split; [try discriminate; intros _; repeat split; lia
                    |intros (Hp & Hd & Hm); try discriminate Hp; try lia; reflexivity]
            |]);
    try lia; cbn [In]; intuition discriminate.
Qed.

(** X10. A listing with no merit scores zero: at dom of 30 or more, miles
    of 100000 or more and a price not below 25000 the response carries
    score 0, with the single reason AgedInventory when dom exceeds 45 and
    the sentinel Heuristic otherwise. *)
Theorem stale_far_driven_listing_scores_zero (item : Listing.t) (st : Store) :
  30 <= Listing.dom item ->
  100000 <= Listing.miles item ->
  fltb (Listing.price item) (float_of_int 25000) = false ->
  exists r,
    snd (score_item item st) = inr r /\
    ScoreResponse.score r = 0 /\
    ScoreResponse.reasonCodes r =
      (if 45 <? Listing.dom item then ["AgedInventory"] else ["Heuristic"]).
Proof.
  intros Hd Hm Hp. unfold score_item, heuristic.
  replace (Z.max 0 (30 - Listing.dom item)) with 0 by lia.
  replace (Z.max 0 (100000 - Listing.miles item)) with 0 by lia.
  cbn [int_truediv ret bind].
  change (py_lt (PFloat (Listing.price item)) (PInt 25000))
    with (fltb (Listing.price item) (float_of_int 25000)).
  rewrite Hp.
  replace (Listing.dom item <? 20) with false by (symmetry; apply Z.ltb_ge; lia).
  replace (Listing.miles item <? 50000) with false
    by (symmetry; apply Z.ltb_ge; lia).
  assert (Hs : py_int
                 (py_max (PInt 0)
                    (py_min (PInt 100)
                       (PFloat
                          (fadd
                             (fadd (fmul (float_of_int 40) (S754_zero false))
                                (fmul (float_of_int 40) (S754_zero false)))
                             (to_float (PInt 0)))))) = inr 0)
    by (vm_compute; reflexivity).
  rewrite Hs. cbn [bind].
  destruct (45 <? Listing.dom item); cbn [snd ret ScoreResponse.validate];
    eexists; (split; [reflexivity|]); split; reflexivity.
Qed.

Lemma stale_far_driven_listing_scores_zero_witness :
  exists r,
    snd (score_item (Listing.mk "X1" (float_of_int 30000) 120000 60 None)
           empty_store) = inr r /\
    ScoreResponse.score r = 0 /\
    ScoreResponse.reasonCodes r = ["AgedInventory"].
Proof.
  apply (stale_far_driven_listing_scores_zero
           (Listing.mk "X1" (float_of_int 30000) 120000 60 None) empty_store).
  - cbn. lia.
  - cbn. lia.
  - vm_compute. reflexivity.
Defined.

(** The result of a rounding carries the sign it was given, or is a NaN. *)
Lemma binary_round_aux_sign (s : bool) (m e : Z) (l : location) :
  match binary_round_aux prec emax s m e l with
  | S754_zero s' | S754_infinity s' | S754_finite s' _ _ => s' = s
  | S754_nan => True
  end.
Proof.
  unfold binary_round_aux.
  destruct (shr_fexp prec emax m e l) as [mrs' e'].
  destruct (shr_fexp prec emax _ e' loc_Exact) as [mrs'' e''].
  destruct (shr_m mrs''); try reflexivity.
  destruct (e'' <=? _); reflexivity.
Qed.

Lemma round2_not_negative (y : float) :
  fltb y (float_of_int 0) = false -> fltb (round2 y) (float_of_int 0) = false.
Proof.
  change (float_of_int 0) with (S754_zero false).
  destruct y as [s|s| |s m e]; try (intros H; exact H).
  destruct s; [discriminate|]. intros _. cbn [round2].
  destruct (hundredths m e); try reflexivity.
  unfold SFdiv.
  destruct (SFdiv_core_binary prec emax (Z.pos p) 0 100 0) as [[mz ez] lz].
  cbn [xorb]. pose proof (binary_round_aux_sign false mz ez lz) as Hs.
  destruct (binary_round_aux prec emax false mz ez lz) as [s|s| |s m' e'];
    try reflexivity; subst s; reflexivity.
Qed.

Lemma fmax_zero_not_negative (y : float) :
  fltb (fmax (float_of_int 0) y) (float_of_int 0) = false.
Proof.
  unfold fmax. change (float_of_int 0) with (S754_zero false).
  destruct (fltb (S754_zero false) y) eqn:E; [|reflexivity].
  destruct y as [s|s| |s m e]; try discriminate E; destruct s; try discriminate E;
    reflexivity.
Qed.

(** X11. While dom does not exceed 45 the returned buyMax is never below
    zero, whatever the price (a negative price, an infinity or a NaN
    included): [max(0.0, price * 1.03)] and the rounding see to it. *)
Theorem buy_max_not_negative (item : Listing.t) (st : Store) :
  (forall r, snd (score_item item st) = inr r ->
     Listing.dom item <= 45 ->
     fltb (ScoreResponse.buyMax r) (float_of_int 0) = false) /\
  (in_float_range item -> exists r, snd (score_item item st) = inr r).
Proof.
  split;
    [|intros Hr; destruct (score_item_defined item st Hr) as (h & _ & ->);
      eexists; reflexivity].
  intros r Hr Hd. destruct (score_item_response item st r Hr) as (h & Hh & ->).
  destruct (heuristic_inv item h Hh) as (_ & _ & _ & _ & Hbm & _).
  cbn [ScoreResponse.buyMax]. rewrite Hbm. unfold spec_buyMax.
  replace (45 <? Listing.dom item) with false by (symmetry; apply Z.ltb_ge; lia).
  apply round2_not_negative, fmax_zero_not_negative.
Qed.

(** X12. A score request is not atomic: when the heuristic raises on an
    item, the request ends with that exception and no response, and the
    scores of the items before it stay written in the store. *)
Theorem score_batch_is_not_atomic
  (done rest : list Listing.t) (bad : Listing.t) (e : PyErr) (st : Store) :
  Forall in_float_range done ->
  heuristic bad = inl e ->
  score (done ++ bad :: rest) st = (fst (score done st), inl e).
Proof.
  revert st. induction done as [|item done IH]; intros st Hd Hb.
  - cbn [app score fst]. unfold score_item. rewrite Hb. reflexivity.
  - inversion Hd as [|? ? Hi Hl]; subst. cbn [app score].
    destruct (score_item_defined item st Hi) as (h & _ & ->).
    rewrite (IH _ Hl Hb).
    destruct (score_defined done (persist h (vin_key (Listing.vin item)) st) Hl)
      as (out & Ho).
    destruct (score done _) as [st2 [e'|out']]; cbn [snd] in Ho; [discriminate|].
    reflexivity.
Qed.

Lemma score_batch_is_not_atomic_witness :
  score ([example_fact "x1" None] ++ example_overflow :: [example_fact "x1" None])
    (fst (ingest [example_raw "a" "X1" None 1] empty_store)) =
  (fst (score [example_fact "x1" None]
          (fst (ingest [example_raw "a" "X1" None 1] empty_store))),
   inl OverflowError).
Proof.
  apply (score_batch_is_not_atomic [example_fact "x1" None]
           [example_fact "x1" None] example_overflow OverflowError).
  - repeat constructor; apply Z.leb_le; reflexivity.
  - vm_compute. reflexivity.
Defined.

(** X13. The index is never pruned: when an id first posted under one VIN
    is posted again under another, the id stays indexed under the first
    VIN, and a later score request for the first VIN writes onto the
    listing now stored under the other VIN: its score, buyMax and reason
    codes become those of the response, its other fields stay those of the
    second posting. *)
Theorem score_follows_a_stale_index_entry
  (st : Store) (first second : StoredListing.t) (item : Listing.t) :
  StoredListing.id first = StoredListing.id second ->
  vin_key (Listing.vin item) = vin_key (StoredListing.vin first) ->
  in_float_range item ->
  exists r stored',
    snd (score [item] (fst (ingest [first; second] st))) = inr [r] /\
    PyDict.get (StoredListing.id second)
      (_by_id (fst (score [item] (fst (ingest [first; second] st))))) =
      Some stored' /\
    StoredListing.vin stored' = vin_key (StoredListing.vin second) /\
    StoredListing.score stored' = Some (ScoreResponse.score r) /\
    StoredListing.buyMax stored' = Some (ScoreResponse.buyMax r) /\
    StoredListing.reasonCodes stored' = ScoreResponse.reasonCodes r /\
    same_posted_fields (normalize second) stored'.
Proof.
  intros Hid Hk Hr.
  destruct (score_item_defined item (fst (ingest [first; second] st)) Hr)
    as (h & Hh & Hsc).
  destruct (persist_writes h (vin_key (Listing.vin item))
              (fst (ingest [first; second] st)) (StoredListing.id second)
              (normalize second))
    as (stored' & Hg & Hs & Hb & Hc & Hf).
  { change [first; second] with ([first] ++ [second]).
    rewrite ingest_concat. cbn [fst]. rewrite !ingest_single. cbn [fst].
    destruct (tracked_ingest_item _ _ second _ (tracked_after_ingest first st))
      as [_ (ids & Hg & Hin)].
    unfold ids_of. rewrite Hk, Hg, <- Hid. exact Hin. }
  { change [first; second] with ([first] ++ [second]).
    rewrite ingest_concat. cbn [fst]. rewrite !ingest_single. cbn [fst].
    rewrite ingest_item_by_id. apply get_set_same. }
  eexists. exists stored'. rewrite score_single, Hsc. cbn [fst snd].
  split; [reflexivity|]. split; [exact Hg|]. split.
  - destruct Hf as (_ & Hv & _). rewrite <- Hv. apply normalize_vin.
  - repeat split; try assumption; apply Hf.
Qed.

Lemma score_follows_a_stale_index_entry_witness :
  exists r stored',
    snd (score [example_fact "x1" None]
           (fst (ingest [example_raw "a" "X1" None 1;
                         example_raw "a" "Y2" None 2] empty_store))) = inr [r] /\
    PyDict.get "a"
      (_by_id (fst (score [example_fact "x1" None]
                      (fst (ingest [example_raw "a" "X1" None 1;
                                    example_raw "a" "Y2" None 2] empty_store))))) =
      Some stored' /\
    StoredListing.vin stored' = vin_key "Y2" /\
    StoredListing.score stored' = Some (ScoreResponse.score r) /\
    StoredListing.buyMax stored' = Some (ScoreResponse.buyMax r) /\
    StoredListing.reasonCodes stored' = ScoreResponse.reasonCodes r /\
    same_posted_fields (normalize (example_raw "a" "Y2" None 2)) stored'.
Proof.
  apply (score_follows_a_stale_index_entry empty_store
           (example_raw "a" "X1" None 1) (example_raw "a" "Y2" None 2)
           (example_fact "x1" None)).
  - reflexivity.
  - reflexivity.
  - split; apply Z.leb_le; reflexivity.
Defined.

(** ** [score]: a VIN without listings, and the relational backend *)

(** X18. In the in-memory backend, after any run that ingested ASCII VINs
    of which none has the key of the scored (ASCII) VIN, the score
    operation returns a valid response (the caller's VIN, a score in
    [0,100], a non-empty list of reason codes, the rounded buyMax) and the
    store is left as it was. *)
Theorem score_uningested_vin_is_noop (rqs : list request) (item : Listing.t) :
  ingests_ascii_vins rqs ->
  PyStr.isascii (Listing.vin item) = true ->
  never_ingested (vin_key (Listing.vin item)) rqs ->
  in_float_range item ->
  exists r,
    score [item] (run rqs empty_store) = (run rqs empty_store, inr [r]) /\
    ScoreResponse.vin r = Listing.vin item /\
    0 <= ScoreResponse.score r <= 100 /\
    ScoreResponse.reasonCodes r <> [] /\
    ScoreResponse.buyMax r = round2 (spec_buyMax item).
Proof.
  intros _ _ Hn Hr.
  destruct (score_item_defined item (run rqs empty_store) Hr) as (h & Hh & Hsc).
  eexists. rewrite score_single, Hsc. cbn [fst snd].
  rewrite persist_absent by (apply never_ingested_absent, Hn).
  split; [reflexivity|]. split; [reflexivity|].
  destruct (heuristic_score_bounds item h Hh) as (b & _ & _ & Hb).
  destruct (heuristic_inv item h Hh) as (_ & _ & _ & _ & Hbm & _).
  cbn. split; [exact Hb|]. split; [apply reasons_or_default_nonempty|].
  rewrite Hbm. reflexivity.
Qed.

Lemma score_uningested_vin_is_noop_witness :
  exists r,
    score [example_fact "zz9" None]
      (run [Ingest [example_raw "a" "X1" None 1]] empty_store) =
    (run [Ingest [example_raw "a" "X1" None 1]] empty_store, inr [r]) /\
    ScoreResponse.vin r = "zz9" /\
    0 <= ScoreResponse.score r <= 100 /\
    ScoreResponse.reasonCodes r <> [] /\
    ScoreResponse.buyMax r = round2 (spec_buyMax (example_fact "zz9" None)).
Proof.
  apply (score_uningested_vin_is_noop
           [Ingest [example_raw "a" "X1" None 1]] (example_fact "zz9" None)).
  - repeat constructor.
  - reflexivity.
  - repeat constructor. discriminate.
  - split; apply Z.leb_le; reflexivity.
Defined.



(** X20. With the relational backend, scoring a VIN that a row of
    [vehicles] carries appends one row to [scores] and returns one
    response: the row has the key of the VIN, and the score, the buyMax and
    the reason codes of the response; the rows already there and the
    vehicles stay. *)
Theorem score_appends_a_score_row (item : Listing.t) (p : Process) :
  _db_enabled p = true ->
  In (vin_key (Listing.vin item)) (vehicles (database p)) ->
  in_float_range item ->
  exists r row,
    snd (score_on [item] p) = inr [r] /\
    database (fst (score_on [item] p)) =
      mkDb (vehicles (database p)) (scores (database p) ++ [row]) /\
    ScoreRow.vin row = vin_key (Listing.vin item) /\
    ScoreRow.score row = ScoreResponse.score r /\
    ScoreRow.buy_max row = ScoreResponse.buyMax r /\
    ScoreRow.reason_codes row = ScoreResponse.reasonCodes r /\
    ScoreResponse.vin r = Listing.vin item.
Proof.
  intros Hdb Hv Hr. cbn [score_on].
  destruct (score_item_on_database item p Hdb Hr) as (h & _ & ->).
  apply str_in_In in Hv. rewrite Hv. cbn [fst snd database].
  eexists. eexists. split; [reflexivity|]. split; [reflexivity|].
  repeat split.
Qed.

Lemma score_appends_a_score_row_witness :
  exists r row,
    snd (score_on [example_fact " x1" None]
           (mkProcess true (mkDb ["X1"] []) empty_store)) = inr [r] /\
    database (fst (score_on [example_fact " x1" None]
                     (mkProcess true (mkDb ["X1"] []) empty_store))) =
      mkDb ["X1"] ([] ++ [row]) /\
    ScoreRow.vin row = vin_key " x1" /\
    ScoreRow.score row = ScoreResponse.score r /\
    ScoreRow.buy_max row = ScoreResponse.buyMax r /\
    ScoreRow.reason_codes row = ScoreResponse.reasonCodes r /\
    ScoreResponse.vin r = " x1".
Proof.
  apply (score_appends_a_score_row (example_fact " x1" None)
           (mkProcess true (mkDb ["X1"] []) empty_store)).
  - reflexivity.
  - left. reflexivity.
  - split; apply Z.leb_le; reflexivity.
Defined.

(** ** [notify] *)

Lemma notify_spec (items : list NotifyItem.t) (log : list (PyDict.dict string)) :
  notify items log = (log ++ map notify_entry items, map notify_response items).
Proof.
  revert log. induction items as [|it items IH]; intro log; cbn [notify map].
  - now rewrite app_nil_r.
  - rewrite IH, <- app_assoc. reflexivity.
Qed.

Lemma Forall2_map_self {A B : Type} (P : A -> B -> Prop) (f : A -> B)
  (xs : list A) :
  (forall x, P x (f x)) -> Forall2 P xs (map f xs).
Proof. intros H. induction xs; cbn [map]; constructor; auto. Qed.

Lemma str_or_nonempty (x : option string) (d : string) :
  d <> "" -> str_or x d <> "".
Proof. intros Hd. destruct x as [[|c s]|]; cbn [str_or]; [exact Hd|discriminate|exact Hd]. Qed.

(** X14. [notify] only ever appends to the log: the entries logged before
    the request are kept in order, and one entry per item follows them, in
    the order of the request, holding the canonical VIN, a non-empty
    channel and a non-empty message, which is "Notify for VIN <vin>" when
    the item has no message or an empty one. *)
Theorem notify_appends_to_log
  (items : list NotifyItem.t) (log : list (PyDict.dict string)) :
  firstn (List.length log) (fst (notify items log)) = log /\
  Forall2
    (fun it entry =>
       PyDict.get "vin" entry = Some (vin_key (NotifyItem.vin it)) /\
       (exists c, PyDict.get "channel" entry = Some c /\ c <> "") /\
       (exists m,
          PyDict.get "message" entry = Some m /\ m <> "" /\
          (NotifyItem.message it = None \/ NotifyItem.message it = Some "" ->
           m = ("Notify for VIN " ++ vin_key (NotifyItem.vin it))%string) /\
          (forall s, NotifyItem.message it = Some s -> s <> "" -> m = s)))
    items (skipn (List.length log) (fst (notify items log))).
Proof.
  rewrite notify_spec. cbn [fst]. split.
  - rewrite firstn_app, Nat.sub_diag, firstn_all. cbn [firstn]. apply app_nil_r.
  - rewrite skipn_app, Nat.sub_diag, skipn_all. cbn [skipn app].
    apply Forall2_map_self. intros it. unfold notify_entry. cbn [PyDict.get].
    split; [reflexivity|]. split.
    + eexists. split; [reflexivity|]. apply str_or_nonempty. discriminate.
    + eexists. split; [reflexivity|]. split; [|split].
      * apply str_or_nonempty. discriminate.
      * intros [->| ->]; reflexivity.
      * intros s -> Hs. destruct s; [contradiction|reflexivity].
Qed.

(** X15. [notify] answers every item, in order, with notified set, the VIN
    trimmed and in upper case, and a channel that is never empty: the
    item's own channel, or "email" when the item has none or an empty
    one. *)
Theorem notify_responses
  (items : list NotifyItem.t) (log : list (PyDict.dict string)) :
  Forall2
    (fun it r =>
       NotifyResponse.vin r = vin_key (NotifyItem.vin it) /\
       PyStr.strip (NotifyResponse.vin r) = NotifyResponse.vin r /\
       PyStr.upper (NotifyResponse.vin r) = NotifyResponse.vin r /\
       NotifyResponse.notified r = true /\
       NotifyResponse.channel r <> "" /\
       (NotifyItem.channel it = None \/ NotifyItem.channel it = Some "" ->
        NotifyResponse.channel r = "email") /\
       (forall c, NotifyItem.channel it = Some c -> c <> "" ->
        NotifyResponse.channel r = c))
    items (snd (notify items log)).
Proof.
  rewrite notify_spec. cbn [snd]. apply Forall2_map_self. intros it.
  unfold notify_response. cbn.
  split; [reflexivity|]. split; [apply vin_key_canonical|].
  split; [apply vin_key_canonical|]. split; [reflexivity|].
  split; [apply str_or_nonempty; discriminate|]. split.
  - intros [->| ->]; reflexivity.
  - intros c -> Hc. destruct c; [contradiction|reflexivity].
Qed.

(** ** Reason codes and the index, continued *)

(** X16. Each reason code tells its threshold: in a response,
    PriceVsBaseline is present exactly when the price is below 25000,
    LowDOM exactly when dom is below 20, LowMiles exactly when miles is
    below 50000, and AgedInventory exactly when dom exceeds 45. *)
Theorem reason_codes_tell_thresholds (item : Listing.t) (st : Store) :
  (forall r, snd (score_item item st) = inr r ->
     (In "PriceVsBaseline" (ScoreResponse.reasonCodes r) <->
      fltb (Listing.price item) (float_of_int 25000) = true) /\
     (In "LowDOM" (ScoreResponse.reasonCodes r) <-> Listing.dom item < 20) /\
     (In "LowMiles" (ScoreResponse.reasonCodes r) <-> Listing.miles item < 50000) /\
     (In "AgedInventory" (ScoreResponse.reasonCodes r) <-> 45 < Listing.dom item)) /\
  (in_float_range item -> exists r, snd (score_item item st) = inr r).
Proof.
  split;
    [|intros Hr; destruct (score_item_defined item st Hr) as (h & _ & ->);
      eexists; reflexivity].
  intros r Hr. destruct (score_item_response item st r Hr) as (h & Hh & ->).
  destruct (heuristic_inv item h Hh) as (_ & _ & _ & _ & _ & Hrs).
  cbn [ScoreResponse.reasonCodes]. rewrite Hrs. unfold spec_reasons.
  destruct (fltb (Listing.price item) (float_of_int 25000));
    destruct (Z.ltb_spec (Listing.dom item) 20);
    destruct (Z.ltb_spec (Listing.miles item) 50000);
    destruct (Z.ltb_spec 45 (Listing.dom item));
    cbn [app reasons_or_default In];
    repeat split; intros; try lia; try discriminate; try tauto;
    intuition discriminate.
Qed.

(** X17. The index is complete: after any run of requests, every listing
    that some ingest request of the run posted has its id stored and
    listed in the index under its canonical VIN. *)
Theorem ingested_ids_are_indexed
  (before after : list request) (ls1 ls2 : list StoredListing.t)
  (raw : StoredListing.t) :
  tracked (StoredListing.id raw) (vin_key (StoredListing.vin raw))
    (run (before ++ Ingest (ls1 ++ raw :: ls2) :: after) empty_store).
Proof.
  rewrite run_app. change (Ingest (ls1 ++ raw :: ls2) :: after)
    with ([Ingest (ls1 ++ raw :: ls2)] ++ after).
  rewrite run_app. apply tracked_run.
  cbn [run fold_left handle]. rewrite ingest_concat. cbn [fst].
  change (raw :: ls2) with ([raw] ++ ls2). rewrite ingest_concat. cbn [fst].
  rewrite ingest_single. cbn [fst].
  apply (ingest_keeps (fun _ => True)
           (tracked (StoredListing.id raw) (vin_key (StoredListing.vin raw)))).
  - intros item s _. apply tracked_ingest_item.
  - clear. induction ls2; constructor; auto.
  - apply tracked_after_ingest.
Qed.
